(** * An RSS-to-Telegram relay: the delivery pipeline of [bot.py]

    The development embeds the deduplication-aware delivery pipeline of
    [src/bot.py] -- the sent-item store ([load_sent_items],
    [save_sent_item]), the message composition and the poll cycle
    ([check_rss_feed]) -- and proves properties of it.

    Conventions of the embedding:
    - a Python [str] is a [string], one [ascii] per character (code points
      below 256); [len] is an unbounded integer, hence [Z];
    - a feed entry is the dictionary the code reads with [entry.get], a
      [gmap string string]; [sent_item_ids] is a [gset string];
    - the two outbound interfaces, [feedparser.parse] and
      [context.bot.send_message], are parameters of the development; an
      exception they raise is a value of [result];
    - a run takes a state (the sent set, the file with its permissions,
      the endpoint) to an outcome, the state it leaves and the events it
      produced (log records and calls of the endpoint, in order);
    - exceptions are the instances of Python's [Exception] (what
      [except Exception] catches); interpreter-level signals are not
      modelled. *)

From Stdlib Require Import ZArith Lia Ascii String.
From stdpp Require Import base option list gmap sets strings pretty.

Open Scope string_scope.
Open Scope list_scope.
Open Scope Z_scope.

(** ** Python strings *)

Module Py.

Definition LF : ascii := "010"%char.
Definition CR : ascii := "013"%char.
Definition DQUOTE : ascii := "034"%char.
Definition SQUOTE : ascii := "039"%char.

(** ["\n"] as a one-character string. *)
Definition nl : string := String LF "".
Definition dq : string := String DQUOTE "".

(** [len(s)] *)
Definition len (s : string) : Z := Z.of_nat (String.length s).

(** [bool(s)]: a string is true when it is not empty. *)
Definition truthy (s : string) : bool :=
  match s with
  | EmptyString => false
  | String _ _ => true
  end.

(** The first [n] characters of [s] (all of [s] when it is shorter). *)
Fixpoint take (n : nat) (s : string) : string :=
  match n, s with
  | O, _ => ""
  | S _, EmptyString => ""
  | S n', String c s' => String c (take n' s')
  end.

(** [s[:n]]: a negative bound counts from the end of [s]. *)
Definition slice_to (s : string) (n : Z) : string :=
  if 0 <=? n then take (Z.to_nat n) s
  else take (Z.to_nat (len s + n)) s.

(** [s.replace(old, new)] for a one-character [old]. *)
Fixpoint replace (old : ascii) (new : string) (s : string) : string :=
  match s with
  | EmptyString => ""
  | String c s' =>
      if Ascii.eqb c old then new +:+ replace old new s'
      else String c (replace old new s')
  end.

(** [html.escape(s)] (with [quote=True], the default): the five
    replacements of the standard library, [&] first. *)
Definition html_escape (s : string) : string :=
  let s := replace "&"%char "&amp;" s in
  let s := replace "<"%char "&lt;" s in
  let s := replace ">"%char "&gt;" s in
  let s := replace DQUOTE "&quot;" s in
  let s := replace SQUOTE "&#x27;" s in
  s.

(** [c.lower()] on the code points below 256. *)
Definition lower_char (c : ascii) : ascii :=
  let n := nat_of_ascii c in
  if ((65 <=? n) && (n <=? 90))%nat then ascii_of_nat (n + 32)
  else if ((192 <=? n) && (n <=? 222) && negb (n =? 215))%nat
       then ascii_of_nat (n + 32)
  else c.

(** [s.lower()] *)
Fixpoint lower (s : string) : string :=
  match s with
  | EmptyString => ""
  | String c s' => String (lower_char c) (lower s')
  end.

(** [needle in s] *)
Fixpoint contains (needle s : string) : bool :=
  if String.prefix needle s then true
  else match s with
       | EmptyString => false
       | String _ s' => contains needle s'
       end.

(** [c.isspace()] on the code points below 256. *)
Definition isspace (c : ascii) : bool :=
  let n := nat_of_ascii c in
  ((9 <=? n) && (n <=? 13) || (28 <=? n) && (n <=? 32)
   || (n =? 133) || (n =? 160))%nat.

(** [s.lstrip()] *)
Fixpoint lstrip (s : string) : string :=
  match s with
  | EmptyString => ""
  | String c s' => if isspace c then lstrip s' else s
  end.

(** [s.rstrip()] *)
Fixpoint rstrip (s : string) : string :=
  match s with
  | EmptyString => ""
  | String c s' =>
      match rstrip s' with
      | EmptyString => if isspace c then "" else String c ""
      | r => String c r
      end
  end.

(** [s.strip()] *)
Definition strip (s : string) : string := rstrip (lstrip s).

(** Reading a text file translates the line endings ["\r\n"] and
    ["\r"] to ["\n"] (universal newlines, the default of [open]). *)
Fixpoint universal_newlines (s : string) : string :=
  match s with
  | EmptyString => ""
  | String c s' =>
      if Ascii.eqb c CR then
        match s' with
        | String c' s'' =>
            if Ascii.eqb c' LF then universal_newlines s'
            else String LF (universal_newlines s')
        | EmptyString => nl
        end
      else String c (universal_newlines s')
  end.

(** The lines of a text, each with its terminating ["\n"] (the last
    one has none when the text does not end with ["\n"]). *)
Fixpoint splitlines_keepends (s : string) : list string :=
  match s with
  | EmptyString => []
  | String c s' =>
      if Ascii.eqb c LF then nl :: splitlines_keepends s'
      else match splitlines_keepends s' with
           | [] => [String c ""]
           | l :: ls => String c l :: ls
           end
  end.

(** [for line in f], for a file [f] open for reading in text mode. *)
Definition file_lines (content : string) : list string :=
  splitlines_keepends (universal_newlines content).

End Py.

Import Py.

(** ** Configuration (module constants of [bot.py]) *)

Definition RSS_FEED_URL : string := "https://rss.app/feeds/OUYIM0VGlxqKueAS.xml".
Definition CHECK_INTERVAL_SECONDS : Z := 300.
Definition SENT_ITEMS_FILE : string := "sent_rss_items.txt".
Definition MAX_MESSAGE_LENGTH : Z := 4096.

(** ** Data *)

(** A raised [Exception]; [str e] is what [str(e)] and [f"{e}"] give. *)
Inductive exn : Type := Exception (message : string).

Definition str (e : exn) : string := let 'Exception m := e in m.

(** The outcome of a call: it returns a value or raises. *)
Inductive result (A : Type) : Type :=
  | Return (a : A)
  | Raise (e : exn).
Arguments Return {A} a.
Arguments Raise {A} e.

(** What [feedparser.parse] returns, as far as the code reads it. An
    entry is a dictionary from field names to strings. *)
Record FeedParserDict : Type := {
  bozo : bool;
  bozo_exception : string;
  entries : list (gmap string string)
}.

(** [context.bot_data], with the two keys the code uses. *)
Record bot_data : Type := {
  chat_id_confirmed : option bool;
  user_chat_id : option string
}.

Inductive ParseMode : Type := HTML | MARKDOWN_V2.

Inductive level : Type := INFO | WARNING | ERROR | CRITICAL.

(** What a run does to the outside, in order: the records handed to the
    logger and the calls of [context.bot.send_message] with their
    outcome. *)
Inductive event : Type :=
  | Log (lv : level) (msg : string)
  | SendMessage (chat_id text : string) (parse_mode : ParseMode)
      (disable_web_page_preview : option bool) (outcome : result unit).

(** [entry.get("id", entry.get("link"))]: the link is looked up only as
    the default of an absent ["id"] key. *)
Definition item_id_of (entry : gmap string string) : option string :=
  match entry !! "id" with
  | Some i => Some i
  | None => entry !! "link"
  end.

(** [bool(x)] for a value that is a string or [None]. *)
Definition truthy_opt (x : option string) : bool :=
  match x with
  | Some s => truthy s
  | None => false
  end.

(** ** Message composition *)

(** The full form, lines 84-97 of [check_rss_feed]. *)
Definition full_message (title link description : string) : string :=
  let message := "<b>" +:+ html_escape title +:+ "</b>" +:+ nl +:+ nl in
  let message :=
    if truthy description then
      let max_desc_len := MAX_MESSAGE_LENGTH - len message - len link - 50 in
      let description :=
        if len description >? max_desc_len
        then slice_to description max_desc_len +:+ "..."
        else description in
      message +:+ description +:+ nl +:+ nl
    else message in
  if truthy link
  then message +:+ "<a href=" +:+ dq +:+ html_escape link +:+ dq +:+ ">Read more</a>"
  else message +:+ "No link available.".

(** The short form, line 115. *)
Definition short_message (title link : string) : string :=
  "<b>" +:+ html_escape title +:+ "</b>" +:+ nl +:+ nl +:+
  "<a href='" +:+ html_escape link +:+ "'>Read more</a>".

(** [entry.get("title", "No Title")], [entry.get("link", "")] and
    [entry.get("summary", entry.get("description", ""))]. *)
Definition title_of (entry : gmap string string) : string :=
  default "No Title" (entry !! "title").
Definition link_of (entry : gmap string string) : string :=
  default "" (entry !! "link").
Definition description_of (entry : gmap string string) : string :=
  default (default "" (entry !! "description")) (entry !! "summary").

(** ["message is too long" in str(e).lower()] *)
Definition is_too_long (e : exn) : bool :=
  contains "message is too long" (lower (str e)).

(** The exceptions of a file that cannot be opened: no permission, and
    no such file. *)
Definition permission_denied : exn :=
  Exception ("[Errno 13] Permission denied: '" +:+ SENT_ITEMS_FILE +:+ "'").
Definition file_not_found : exn :=
  Exception ("[Errno 2] No such file or directory: '" +:+ SENT_ITEMS_FILE +:+ "'").

(** ** The program *)

Section Bot.

(** The messaging endpoint: its own state, and what a call of
    [send_message(chat_id, text, parse_mode, disable_web_page_preview)]
    does to it and answers. *)
Context {Bot : Type}.
Variable send_message :
  Bot -> string -> string -> ParseMode -> option bool -> result unit * Bot.

(** What [feedparser.parse(url)] gives in the cycle at hand. *)
Variable feedparser_parse : string -> result FeedParserDict.

(** [TARGET_CHAT_ID = os.environ.get("CHAT_ID")] *)
Variable TARGET_CHAT_ID : option string.

(** The state a run works on: the global [sent_item_ids], the file
    [SENT_ITEMS_FILE] ([None] when it does not exist) with whether it
    can be opened for reading and for appending, and the endpoint. *)
Record state : Type := {
  sent_item_ids : gset string;
  disk : option string;
  disk_readable : bool;
  disk_writable : bool;
  bot : Bot
}.

Definition set_sent_item_ids (s : gset string) (st : state) : state :=
  {| sent_item_ids := s; disk := disk st; disk_readable := disk_readable st;
     disk_writable := disk_writable st; bot := bot st |}.
Definition set_disk (d : option string) (st : state) : state :=
  {| sent_item_ids := sent_item_ids st; disk := d;
     disk_readable := disk_readable st;
     disk_writable := disk_writable st; bot := bot st |}.
Definition set_bot (b : Bot) (st : state) : state :=
  {| sent_item_ids := sent_item_ids st; disk := disk st;
     disk_readable := disk_readable st;
     disk_writable := disk_writable st; bot := b |}.

(** A computation: from a state to an outcome, the state it leaves and
    the events it produced. An exception keeps the state and events
    reached when it was raised. *)
Definition M (A : Type) : Type := state -> result A * state * list event.

Definition ret {A} (a : A) : M A := fun st => (Return a, st, []).
Definition raise {A} (e : exn) : M A := fun st => (Raise e, st, []).
Definition bind {A B} (m : M A) (k : A -> M B) : M B :=
  fun st =>
    match m st with
    | (Return a, st1, ev1) =>
        let '(r, st2, ev2) := k a st1 in (r, st2, ev1 ++ ev2)
    | (Raise e, st1, ev1) => (Raise e, st1, ev1)
    end.

(** [try: m except Exception as e: h e] *)
Definition try_except {A} (m : M A) (h : exn -> M A) : M A :=
  fun st =>
    match m st with
    | (Return a, st1, ev1) => (Return a, st1, ev1)
    | (Raise e, st1, ev1) =>
        let '(r, st2, ev2) := h e st1 in (r, st2, ev1 ++ ev2)
    end.

Notation "x <- m ;; k" := (bind m (fun x => k))
  (at level 100, m at next level, right associativity).
Notation "m ;;; k" := (bind m (fun _ => k))
  (at level 100, right associativity).

(** [for x in l: acc = body x acc], with the loop's local variables in
    [acc]; an exception leaves the loop. *)
Fixpoint for_in {A B} (l : list A) (body : A -> B -> M B) (acc : B) : M B :=
  match l with
  | [] => ret acc
  | x :: l' => acc' <- body x acc ;; for_in l' body acc'
  end.

(** A call of the outside that leaves the state alone, by its outcome. *)
Definition call {A} (r : result A) : M A := fun st => (r, st, []).

Definition get : M state := fun st => (Return st, st, []).
Definition put (st : state) : M unit := fun _ => (Return tt, st, []).
Definition emit (e : event) : M unit := fun st => (Return tt, st, [e]).

Definition logger_info (msg : string) : M unit := emit (Log INFO msg).
Definition logger_warning (msg : string) : M unit := emit (Log WARNING msg).
Definition logger_error (msg : string) : M unit := emit (Log ERROR msg).

(** [entry.title]: attribute access on a feedparser entry raises
    [AttributeError] when the key is absent. *)
Definition getattr (entry : gmap string string) (key : string) : M string :=
  match entry !! key with
  | Some v => ret v
  | None => raise (Exception ("object has no attribute '" +:+ key +:+ "'"))
  end.

(** [await context.bot.send_message(...)] *)
Definition bot_send_message (chat_id text : string) (parse_mode : ParseMode)
    (disable_web_page_preview : option bool) : M unit :=
  fun st =>
    let '(r, b) :=
      send_message (bot st) chat_id text parse_mode disable_web_page_preview in
    (r, set_bot b st,
     [SendMessage chat_id text parse_mode disable_web_page_preview r]).

(** [await asyncio.sleep(1)]: a pause, no effect on the state ([asyncio]
    is bound by the import under [if __name__ == "__main__"]). *)
Definition asyncio_sleep (seconds : Z) : M unit := ret tt.

(** [with open(SENT_ITEMS_FILE, "a") as f: f.write(data)]: the file is
    created when absent; opening fails when it cannot be written. *)
Definition append_file (data : string) : M unit :=
  st <- get ;;
  if disk_writable st then
    put (set_disk (Some (default "" (disk st) +:+ data)) st)
  else raise permission_denied.

(** [with open(SENT_ITEMS_FILE, "r") as f]: the text of the file;
    opening fails when the file is absent or cannot be read. *)
Definition read_file : M string :=
  st <- get ;;
  match disk st with
  | None => raise file_not_found
  | Some content =>
      if disk_readable st then ret content else raise permission_denied
  end.

(** [{line.strip() for line in f if line.strip()}] *)
Definition parse_sent_items (content : string) : gset string :=
  list_to_set
    (map strip (filter (fun line => truthy (strip line) = true)
                  (file_lines content))).

(** [os.path.exists(SENT_ITEMS_FILE)] *)
Definition os_path_exists : M bool :=
  st <- get ;;
  ret (match disk st with Some _ => true | None => false end).

Definition load_sent_items : M unit :=
  exists_ <- os_path_exists ;;
  (if exists_ : bool then
     text <- read_file ;;
     st <- get ;;
     put (set_sent_item_ids (parse_sent_items text) st)
   else ret tt) ;;;
  st <- get ;;
  logger_info ("Loaded " +:+ pretty (size (sent_item_ids st)) +:+
               " sent item IDs from " +:+ SENT_ITEMS_FILE).

Definition save_sent_item (item_id : string) : M unit :=
  st <- get ;;
  put (set_sent_item_ids ({[ item_id ]} ∪ sent_item_ids st) st) ;;;
  append_file (item_id +:+ nl).

(** The body of the loop [for entry in reversed(feed.entries)], lines
    67-125; [new_items_found] is the loop's counter. *)
Definition loop_body (current_target_chat_id : string)
    (entry : gmap string string) (new_items_found : nat) : M nat :=
  match item_id_of entry with
  | None | Some EmptyString =>
      logger_warning ("Entry without id or link: " +:+
                      default "N/A" (entry !! "title")) ;;;
      ret new_items_found
  | Some item_id =>
      st <- get ;;
      if bool_decide (item_id ∉ sent_item_ids st) then
        entry_title <- getattr entry "title" ;;
        logger_info ("New item found: " +:+ entry_title) ;;;
        let title := title_of entry in
        let link := link_of entry in
        let description := description_of entry in
        let message := full_message title link description in
        try_except
          (bot_send_message current_target_chat_id message HTML (Some false) ;;;
           save_sent_item item_id ;;;
           asyncio_sleep 1 ;;;
           ret (S new_items_found))
          (fun e =>
             logger_error ("Error sending Telegram message for '" +:+ title
                           +:+ "': " +:+ str e) ;;;
             if is_too_long e then
               try_except
                 (let short_message := short_message title link in
                  bot_send_message current_target_chat_id short_message HTML None ;;;
                  save_sent_item item_id ;;;
                  ret (S new_items_found))
                 (fun e_short =>
                    logger_error ("Error sending SHORTER Telegram message for '"
                                  +:+ title +:+ "': " +:+ str e_short) ;;;
                    ret new_items_found)
             else ret new_items_found)
      else ret new_items_found
  end.

Definition check_rss_feed (context : bot_data) : M unit :=
  if negb (default false (chat_id_confirmed context))
     && negb (truthy_opt TARGET_CHAT_ID) then
    logger_warning "TARGET_CHAT_ID not set and no /start command received yet. Skipping RSS check."
  else
    let current_target_chat_id :=
      if truthy_opt TARGET_CHAT_ID then TARGET_CHAT_ID
      else user_chat_id context in
    match current_target_chat_id with
    | None | Some EmptyString =>
        logger_error "No target chat ID available to send messages."
    | Some current_target_chat_id =>
        logger_info ("Checking RSS feed: " +:+ RSS_FEED_URL) ;;;
        try_except
          (feed <- call (feedparser_parse RSS_FEED_URL) ;;
           if bozo feed then
             logger_error ("Error parsing RSS feed: " +:+ bozo_exception feed)
           else
             new_items_found <-
               for_in (rev (entries feed)) (loop_body current_target_chat_id) 0%nat ;;
             if (0 <? new_items_found)%nat then
               logger_info ("Sent " +:+ pretty new_items_found +:+
                            " new items to chat " +:+ current_target_chat_id +:+ ".")
             else
               logger_info "No new items found in this check.")
          (fun e =>
             logger_error ("An error occurred during RSS check: " +:+ str e))
    end.

End Bot.

Arguments state : clear implicits.
Arguments M : clear implicits.

(** ** Observations on runs *)

Definition is_warning (e : event) : bool :=
  match e with
  | Log WARNING _ => true
  | _ => false
  end.

Definition is_send (e : event) : bool :=
  match e with
  | SendMessage _ _ _ _ _ => true
  | Log _ _ => false
  end.

(** The events of a run without the warning-level log records. *)
Definition no_warnings (ev : list event) : list event :=
  List.filter (fun e => negb (is_warning e)) ev.

(** The calls of [send_message] of a run, in order. *)
Definition sends (ev : list event) : list event := List.filter is_send ev.

(** The texts handed to [send_message] in a run, in order. *)
Definition sent_texts (ev : list event) : list string :=
  flat_map (fun e => match e with
                     | SendMessage _ text _ _ _ => [text]
                     | Log _ _ => []
                     end) ev.

(** The file after appending one line per id of [ids]. *)
Fixpoint append_lines (d : option string) (ids : list string) : option string :=
  match ids with
  | [] => d
  | x :: ids' => append_lines (Some (default "" d +:+ x +:+ nl)) ids'
  end.

(** The full and the short form of an entry, with the defaults the loop
    body gives to absent fields. *)
Definition full_of (entry : gmap string string) : string :=
  full_message (title_of entry) (link_of entry) (description_of entry).
Definition short_of (entry : gmap string string) : string :=
  short_message (title_of entry) (link_of entry).

(** The log records of the loop body. *)
Definition log_new (t : string) : event := Log INFO ("New item found: " +:+ t).
Definition log_send_error (entry : gmap string string) (e : exn) : event :=
  Log ERROR ("Error sending Telegram message for '" +:+ title_of entry
             +:+ "': " +:+ str e).
Definition log_short_error (entry : gmap string string) (e : exn) : event :=
  Log ERROR ("Error sending SHORTER Telegram message for '" +:+ title_of entry
             +:+ "': " +:+ str e).
Definition log_no_identity (entry : gmap string string) : event :=
  Log WARNING ("Entry without id or link: " +:+ default "N/A" (entry !! "title")).

(** The feed [f] with the entries [es] instead of its own. *)
Definition with_entries (f : FeedParserDict) (es : list (gmap string string))
    : FeedParserDict :=
  {| bozo := bozo f; bozo_exception := bozo_exception f; entries := es |}.

(** How many times [c] occurs in [s], and by how much [html.escape]
    lengthens [s]: four characters for an ampersand, three for an angle
    bracket, five for a quote. *)
Fixpoint count_char (c : ascii) (s : string) : nat :=
  match s with
  | EmptyString => O
  | String c' s' => ((if Ascii.eqb c' c then 1 else 0) + count_char c s')%nat
  end.
Definition escape_growth (s : string) : Z :=
  4 * Z.of_nat (count_char "&"%char s)
  + 3 * Z.of_nat (count_char "<"%char s)
  + 3 * Z.of_nat (count_char ">"%char s)
  + 5 * Z.of_nat (count_char DQUOTE s)
  + 5 * Z.of_nat (count_char SQUOTE s).

(** The last character of a string. *)
Fixpoint last_char (s : string) : option ascii :=
  match s with
  | EmptyString => None
  | String c EmptyString => Some c
  | String _ s' => last_char s'
  end.

(** No character of [s] ends a line. *)
Fixpoint no_line_break (s : string) : bool :=
  match s with
  | EmptyString => true
  | String c s' => negb (Ascii.eqb c LF) && negb (Ascii.eqb c CR) && no_line_break s'
  end.

(** Every character of [s] is white space. *)
Fixpoint all_space (s : string) : bool :=
  match s with
  | EmptyString => true
  | String c s' => isspace c && all_space s'
  end.

(** An id that survives a line of the file: not empty, on one line, and
    with no white space at either end. *)
Definition is_token (x : string) : bool :=
  truthy x && no_line_break x && String.eqb (strip x) x.

(** A file made of complete lines: absent, empty, or ending a line. *)
Definition complete_lines (d : option string) : Prop :=
  match d with
  | None => True
  | Some c => c = "" \/ exists c', c = c' +:+ nl
  end.

(** [x] is the identifier of an entry of [es] one of whose two forms was
    accepted by the endpoint in the events [ev]. *)
Definition delivered (x : string) (es : list (gmap string string))
    (ev : list event) : Prop :=
  exists entry chat pm pv text,
    entry ∈ es /\ item_id_of entry = Some x /\
    (text = full_of entry \/ text = short_of entry) /\
    SendMessage chat text pm pv (Return tt) ∈ ev.

(** The title block of a message, and the budget that line 89 computes
    for the summary from it. *)
Definition title_block (title : string) : string :=
  "<b>" +:+ html_escape title +:+ "</b>" +:+ nl +:+ nl.
Definition max_desc_len (title link : string) : Z :=
  MAX_MESSAGE_LENGTH - len (title_block title) - len link - 50.

(** The texts of the calls the loop body makes for one entry that it
    offers to the endpoint: the full form, then possibly the short
    form. *)
Definition attempt_group (entry : gmap string string) (g : list string) : Prop :=
  g = [full_of entry] \/ g = [full_of entry; short_of entry].

(** A delivery candidate in the sent set [S0]: an entry with a non-empty
    identifier outside [S0], and with a title. *)
Definition candidate (S0 : gset string) (entry : gmap string string) : Prop :=
  exists x t, item_id_of entry = Some x /\ truthy x = true /\ (x ∉ S0)
              /\ entry !! "title" = Some t.

(** The chat a cycle delivers to, by lines 47-54 of [check_rss_feed]:
    [None] when the cycle stops before fetching the feed. *)
Definition destination (TARGET_CHAT_ID : option string) (context : bot_data)
    : option string :=
  if negb (default false (chat_id_confirmed context))
     && negb (truthy_opt TARGET_CHAT_ID)
  then None
  else match (if truthy_opt TARGET_CHAT_ID then TARGET_CHAT_ID
              else user_chat_id context) with
       | Some (String c s) => Some (String c s)
       | _ => None
       end.

(** The log records that open and close a cycle that fetched the feed:
    the closing one is by the outcome of the loop. *)
Definition log_checking : event := Log INFO ("Checking RSS feed: " +:+ RSS_FEED_URL).
Definition log_cycle_error (e : exn) : event :=
  Log ERROR ("An error occurred during RSS check: " +:+ str e).
Definition log_closing (chat : string) (r : result nat) : event :=
  match r with
  | Return new_items_found =>
      if (0 <? new_items_found)%nat
      then Log INFO ("Sent " +:+ pretty new_items_found +:+
                     " new items to chat " +:+ chat +:+ ".")
      else Log INFO "No new items found in this check."
  | Raise e => log_cycle_error e
  end.

(** Every call of the endpoint that raised is followed at once by an
    error record of the logger. *)
Fixpoint failures_logged (ev : list event) : bool :=
  match ev with
  | [] => true
  | SendMessage _ _ _ _ (Raise _) :: rest =>
      match rest with
      | Log ERROR _ :: _ => failures_logged rest
      | _ => false
      end
  | _ :: rest => failures_logged rest
  end.

Section Observations.

Context {Bot : Type}.

(** The state after [save_sent_item x] went through, the endpoint being
    left in [b]. *)
Definition recorded (x : string) (b : Bot) (st : state Bot) : state Bot :=
  {| sent_item_ids := {[ x ]} ∪ sent_item_ids st;
     disk := Some (default "" (disk st) +:+ x +:+ nl);
     disk_readable := disk_readable st; disk_writable := disk_writable st;
     bot := b |}.

(** The state after [save_sent_item x] failed on the file: the set has
    the id, the file has not. *)
Definition half_recorded (x : string) (b : Bot) (st : state Bot) : state Bot :=
  {| sent_item_ids := {[ x ]} ∪ sent_item_ids st;
     disk := disk st;
     disk_readable := disk_readable st; disk_writable := disk_writable st;
     bot := b |}.

(** Two runs agree: same outcome, same final state, and the same events
    (log records and calls of the endpoint, in order) once the
    warning-level log records are left out. *)
Definition agree {A} (x y : result A * state Bot * list event) : Prop :=
  x.1.1 = y.1.1 /\ x.1.2 = y.1.2 /\ no_warnings x.2 = no_warnings y.2.

(** The four ways an entry can present itself to the loop body. *)
Inductive entry_case (entry : gmap string string) (st : state Bot) : Prop :=
  | NoIdentity : truthy_opt (item_id_of entry) = false -> entry_case entry st
  | AlreadySent x :
      item_id_of entry = Some x -> truthy x = true -> x ∈ sent_item_ids st ->
      entry_case entry st
  | NewNoTitle x :
      item_id_of entry = Some x -> truthy x = true -> x ∉ sent_item_ids st ->
      entry !! "title" = None -> entry_case entry st
  | NewTitled x t :
      item_id_of entry = Some x -> truthy x = true -> x ∉ sent_item_ids st ->
      entry !! "title" = Some t -> entry_case entry st.

(** An entry is inert from the sent set [S0] on when, in every state
    whose sent set includes [S0], the loop body leaves the state and the
    counter as they are and produces at most warnings. *)
Definition inert
    (send_message :
       Bot -> string -> string -> ParseMode -> option bool -> result unit * Bot)
    (S0 : gset string) (entry : gmap string string) : Prop :=
  forall chat n (st : state Bot), S0 ⊆ sent_item_ids st ->
    exists ev, loop_body send_message chat entry n st = (Return n, st, ev)
               /\ no_warnings ev = [].

End Observations.

(** ** The command handler, the entry point and the repeated job *)

(** A call of the endpoint that was accepted. *)
Definition is_accepted (e : event) : bool :=
  match e with
  | SendMessage _ _ _ _ (Return _) => true
  | _ => false
  end.

(** The accepted calls of a run, in order. *)
Definition accepted (ev : list event) : list event := List.filter is_accepted ev.

(** Every call of the endpoint, accepted or not, is followed at once by
    an error record of the logger. *)
Fixpoint sends_logged_as_errors (ev : list event) : bool :=
  match ev with
  | [] => true
  | SendMessage _ _ _ _ _ :: rest =>
      match rest with
      | Log ERROR _ :: _ => sends_logged_as_errors rest
      | _ => false
      end
  | _ :: rest => sends_logged_as_errors rest
  end.

(** Every call of the endpoint in [ev] is for the chat [chat], in HTML. *)
Definition all_sent_to (chat : string) (ev : list event) : Prop :=
  forall c text pm pv outcome,
    SendMessage c text pm pv outcome ∈ ev -> c = chat /\ pm = HTML.

Section Handlers.

Context {Bot : Type}.
Variable send_message :
  Bot -> string -> string -> ParseMode -> option bool -> result unit * Bot.

(** [update.message.reply_text(text, parse_mode)], on the same endpoint. *)
Variable reply_text : Bot -> string -> ParseMode -> result unit * Bot.

Variable TARGET_CHAT_ID : option string.

(** The text that lines 144-153 of [start] build from [TARGET_CHAT_ID]
    (the lines are damaged in the source and carry characters outside the
    range of the embedding). *)
Variable welcome_message : option string -> string.

Notation "x <- m ;; k" := (bind m (fun x => k))
  (at level 100, m at next level, right associativity).
Notation "m ;;; k" := (bind m (fun _ => k))
  (at level 100, right associativity).

(** The process while it polls: [context.bot_data], the one dictionary
    that the handler writes and the job reads, and the state of the
    store and of the endpoint. *)
Record app : Type := {
  app_data : bot_data;
  app_state : state Bot
}.

(** A handler: like a computation, on the process. *)
Definition handler (A : Type) : Type := app -> result A * app * list event.

(** [start], lines 138-156; [chat] is [update.effective_chat.id]. The
    two assignments to [context.bot_data] come before the reply, and
    stay when the reply raises. *)
Definition start (chat : Z) : handler unit :=
  fun a =>
    let user_chat_id := chat in
    let data := {| chat_id_confirmed := Some true;
                   user_chat_id := Some (pretty user_chat_id) |} in
    let '(r, b) :=
      reply_text (bot (app_state a)) (welcome_message TARGET_CHAT_ID) MARKDOWN_V2 in
    let a' := {| app_data := data; app_state := set_bot b (app_state a) |} in
    match r with
    | Return _ =>
        (Return tt, a',
         [Log INFO ("/start command received from chat_id: " +:+ pretty user_chat_id
                    +:+ ". Bot will now post to " +:+
                    (if truthy_opt TARGET_CHAT_ID then default "" TARGET_CHAT_ID
                     else pretty user_chat_id))])
    | Raise e => (Raise e, a', [])
    end.

(** The job: [check_rss_feed] with the [bot_data] of the process; [fp]
    is what [feedparser.parse] gives at that time. *)
Definition check_rss_feed_job (fp : string -> result FeedParserDict) : handler unit :=
  fun a =>
    let '(r, st, ev) :=
      check_rss_feed send_message fp TARGET_CHAT_ID (app_data a) (app_state a) in
    (r, {| app_data := app_data a; app_state := st |}, ev).

(** [main], lines 170-200, up to the call of [application.run_polling()]:
    [Some bot_data] when polling starts with that [application.bot_data],
    [None] when [main] returns before. Building the application (line
    181) and registering the handler and the job (lines 190-198) are
    calls of the library, given by their outcome. *)
Definition main (TELEGRAM_TOKEN : option string)
    (build_application : string -> result unit) (register : result unit)
    : M Bot (option bot_data) :=
  if negb (truthy_opt TELEGRAM_TOKEN) then
    emit (Log CRITICAL "BOT_TOKEN environment variable not set. Exiting.") ;;;
    ret None
  else
    (if negb (truthy_opt TARGET_CHAT_ID) then
       logger_warning ("CHAT_ID environment variable not set. " +:+
                       "The bot will only send messages to the chat where /start is first used.")
     else ret tt) ;;;
    load_sent_items ;;;
    call (build_application (default "" TELEGRAM_TOKEN)) ;;;
    let bot_data := {| chat_id_confirmed := Some false; user_chat_id := None |} in
    let bot_data :=
      if truthy_opt TARGET_CHAT_ID
      then {| chat_id_confirmed := Some true; user_chat_id := TARGET_CHAT_ID |}
      else bot_data in
    call register ;;;
    logger_info "Bot starting..." ;;;
    ret (Some bot_data).

(** The job run once per feed of [fps], one run after the other, with
    the same [bot_data] ([job_queue.run_repeating], line 195). *)
Definition run_cycles (fps : list (string -> result FeedParserDict))
    (context : bot_data) : M Bot unit :=
  for_in fps
    (fun fp _ => check_rss_feed send_message fp TARGET_CHAT_ID context) tt.

(** [save_sent_item] for each id of [ids], in order. *)
Definition record_all (ids : list string) : M Bot unit :=
  for_in ids (fun x _ => save_sent_item x) tt.

(** The endpoint accepts every message. *)
Definition accepting : Prop :=
  forall b chat text pm pv, (send_message b chat text pm pv).1 = Return tt.

End Handlers.

Arguments app : clear implicits.
Arguments handler : clear implicits.

(** The warning of [main] about a missing [CHAT_ID], when it is given. *)
Definition chat_id_warning (TARGET_CHAT_ID : option string) : list event :=
  if truthy_opt TARGET_CHAT_ID then []
  else [Log WARNING ("CHAT_ID environment variable not set. " +:+
                     "The bot will only send messages to the chat where /start is first used.")].

(** Memory and file in step: the in-memory set is what a load of the
    file would give, and the file is made of complete lines. *)
Definition in_step {Bot : Type} (st : state Bot) : Prop :=
  sent_item_ids st = parse_sent_items (default "" (disk st))
  /\ complete_lines (disk st).

(** The identifiers of the entries of [es] that are not empty. *)
Definition identifiers (es : list (gmap string string)) : list string :=
  omap (fun entry => match item_id_of entry with
                     | Some (String c s) => Some (String c s)
                     | _ => None
                     end) es.

(** ** Concrete inputs

    Endpoints, feeds, entries and states on which the program is run
    below. *)

(** An endpoint that accepts every message. *)
Definition always_ok (b : unit) (chat_id text : string) (parse_mode : ParseMode)
    (disable_web_page_preview : option bool) : result unit * unit :=
  (Return tt, b).

(** An endpoint that rejects every message. *)
Definition always_down (b : unit) (chat_id text : string) (parse_mode : ParseMode)
    (disable_web_page_preview : option bool) : result unit * unit :=
  (Raise (Exception "Timed out"), b).

(** An endpoint that rejects the texts longer than [MAX_MESSAGE_LENGTH],
    with the error text of the Telegram Bot API, and accepts the others. *)
Definition telegram (b : unit) (chat_id text : string) (parse_mode : ParseMode)
    (disable_web_page_preview : option bool) : result unit * unit :=
  if MAX_MESSAGE_LENGTH <? len text
  then (Raise (Exception "Message is too long"), b)
  else (Return tt, b).

(** An endpoint that reports every message as too long. *)
Definition always_too_long (b : unit) (chat_id text : string)
    (parse_mode : ParseMode) (disable_web_page_preview : option bool)
    : result unit * unit :=
  (Raise (Exception "Message is too long"), b).

(** A feed that parsed cleanly to the entries [es]. *)
Definition parsed (es : list (gmap string string)) : string -> result FeedParserDict :=
  fun _ => Return {| bozo := false; bozo_exception := ""; entries := es |}.

(** An entry with the four usual fields. *)
Definition mk_entry (id title link summary : string) : gmap string string :=
  <["id" := id]> (<["title" := title]> (<["link" := link]>
    (<["summary" := summary]> ∅))).

(** The state of a process that has just started, with no file yet. *)
Definition first_run : state unit :=
  {| sent_item_ids := ∅; disk := None; disk_readable := true;
     disk_writable := true; bot := tt |}.

(** A context in which [/start] supplied the chat ["42"]. *)
Definition started : bot_data :=
  {| chat_id_confirmed := Some true; user_chat_id := Some "42" |}.

(** [n] times the character [c]. *)
Fixpoint repeat_char (c : ascii) (n : nat) : string :=
  match n with
  | O => ""
  | S n' => String c (repeat_char c n')
  end.

(** The state of a process that started on a file holding [ids]. *)
Definition restarted (ids : list string) : state unit :=
  {| sent_item_ids := list_to_set ids; disk := append_lines None ids;
     disk_readable := true; disk_writable := true; bot := tt |}.

Definition entry_old : gmap string string :=
  mk_entry "urn:1" "old" "http://example.org/1" "first post".
Definition entry_mid : gmap string string :=
  mk_entry "urn:2" "mid" "http://example.org/2" "second post".
Definition entry_new : gmap string string :=
  mk_entry "urn:3" "new" "http://example.org/3" "third post".

(** [entry_mid] as a feed gives it when the item has no title. *)
Definition entry_mid_untitled : gmap string string := delete "title" entry_mid.

(** An entry with empty id and empty link, and one with an empty id and
    a link. *)
Definition entry_anonymous : gmap string string :=
  mk_entry "" "a post" "" "text".
Definition entry_empty_id : gmap string string :=
  mk_entry "" "a post" "http://example.org/9" "text".

(** An entry with a title of 4100 characters, no link and a summary of
    one character. *)
Definition entry_long_title : gmap string string :=
  mk_entry "urn:4" (repeat_char "a" 4100) "" "x".

(** An entry whose link has six ampersands and whose summary has 5000
    characters. *)
Definition entry_query_link : gmap string string :=
  mk_entry "urn:5" "t" "http://example.org/?a=1&b=2&c=3&d=4&e=5&f=6&g=7"
    (repeat_char "s" 5000).

(** An entry with a summary of 5000 characters and a plain link, and the
    same without a link. *)
Definition entry_long_summary : gmap string string :=
  mk_entry "urn:6" "t" "http://example.org/6" (repeat_char "s" 5000).
Definition entry_long_summary_no_link : gmap string string :=
  mk_entry "urn:7" "t" "" (repeat_char "s" 5000).

(** An entry without a link. *)
Definition entry_no_link : gmap string string :=
  <["id" := "urn:8"]> (<["title" := "no link"]> (<["summary" := "text"]> ∅)).

(** A process that begins on a file holding [ids]: the sent set is
    empty until [main] loads the file. *)
Definition cold_start (ids : list string) : state unit :=
  {| sent_item_ids := ∅; disk := append_lines None ids;
     disk_readable := true; disk_writable := true; bot := tt |}.

(** A process whose file cannot be read. *)
Definition locked_out : state unit :=
  {| sent_item_ids := ∅; disk := Some ("urn:1" +:+ nl);
     disk_readable := false; disk_writable := false; bot := tt |}.

(** Replies that go through, and replies that are refused. *)
Definition reply_ok (b : unit) (text : string) (parse_mode : ParseMode)
    : result unit * unit := (Return tt, b).
Definition reply_down (b : unit) (text : string) (parse_mode : ParseMode)
    : result unit * unit := (Raise (Exception "Can't parse entities"), b).

(** A welcome text. *)
Definition welcome (target : option string) : string := "Welcome".

(** A library that builds the application from every token. *)
Definition build_ok (token : string) : result unit := Return tt.

(** The process before any [/start], polling with a fresh [bot_data]. *)
Definition polling : app unit :=
  {| app_data := {| chat_id_confirmed := Some false; user_chat_id := None |};
     app_state := first_run |}.

(** A feed that the parser flagged as not well-formed while keeping the
    entries [es] it could read. *)
Definition flagged (es : list (gmap string string)) : string -> result FeedParserDict :=
  fun _ => Return {| bozo := true; bozo_exception := "not well-formed (invalid token)";
                     entries := es |}.


(** * Properties *)

(** ** Strings *)

Lemma elem_of_rev {A} (x : A) (l : list A) : x ∈ rev l <-> x ∈ l.
Proof. rewrite !list_elem_of_In. symmetry. apply in_rev. Qed.

Lemma append_cons (c : ascii) (a b : string) :
  String c a +:+ b = String c (a +:+ b).
Proof. reflexivity. Qed.

Lemma append_nil_l (b : string) : "" +:+ b = b.
Proof. reflexivity. Qed.

Lemma append_nil_r (a : string) : a +:+ "" = a.
Proof. induction a as [|x a IH]; [done|]. by rewrite append_cons, IH. Qed.

Lemma append_assoc (a b c : string) : (a +:+ b) +:+ c = a +:+ (b +:+ c).
Proof.
  induction a as [|x a IH]; [done|]. by rewrite !append_cons, IH.
Qed.

Lemma length_append (a b : string) :
  String.length (a +:+ b) = (String.length a + String.length b)%nat.
Proof.
  induction a as [|c a IH]; [done|]. rewrite append_cons. simpl. by rewrite IH.
Qed.

Lemma len_append (a b : string) : len (a +:+ b) = len a + len b.
Proof. unfold len. rewrite length_append. lia. Qed.

Lemma len_nonneg (s : string) : 0 <= len s.
Proof. unfold len. lia. Qed.

Lemma length_take (n : nat) (s : string) :
  String.length (take n s) = Nat.min n (String.length s).
Proof.
  revert s. induction n as [|n IH]; intros [|c s]; simpl; try done.
  by rewrite IH.
Qed.

Lemma len_slice_to_nonneg (s : string) (n : Z) :
  0 <= n -> n < len s -> len (slice_to s n) = n.
Proof.
  intros Hn Hlt. unfold slice_to.
  destruct (Z.leb_spec 0 n) as [_|?]; [|lia].
  unfold len in *. rewrite length_take. lia.
Qed.

Lemma truthy_len (s : string) : truthy s = true <-> 0 < len s.
Proof. destruct s; unfold len; simpl; split; (done || lia). Qed.

(** ** Running computations *)

Ltac run_monad :=
  repeat (cbv beta iota zeta delta
            [bind try_except ret raise call get put emit logger_info logger_warning
             logger_error bot_send_message save_sent_item append_file
             asyncio_sleep getattr];
          simpl).

Section Runs.

Context {Bot : Type}.
Variable send_message :
  Bot -> string -> string -> ParseMode -> option bool -> result unit * Bot.

Implicit Types (st : state Bot) (entry : gmap string string) (n : nat).

Lemma for_in_app {A B} (l1 l2 : list A) (body : A -> B -> M Bot B) (acc : B) st :
  for_in (l1 ++ l2) body acc st =
  bind (for_in l1 body acc) (for_in l2 body) st.
Proof.
  revert acc st. induction l1 as [|x l1 IH]; intros acc st; simpl.
  - unfold bind, ret. by destruct (for_in l2 body acc st) as [[r s] ev].
  - unfold bind. destruct (body x acc st) as [[[a|e] s1] ev1]; [|done].
    rewrite IH. unfold bind.
    destruct (for_in l1 body a s1) as [[[a'|e'] s2] ev2]; [|done].
    destruct (for_in l2 body a' s2) as [[r s3] ev3]. by rewrite app_assoc.
Qed.

(** The permission error of the file is not an oversize report. *)
Lemma permission_denied_not_too_long : is_too_long permission_denied = false.
Proof. reflexivity. Qed.

(** *** The loop body, case by case *)

(** An entry without a usable identifier: one warning, nothing else. *)
Lemma loop_body_no_identity chat entry n st :
  truthy_opt (item_id_of entry) = false ->
  loop_body send_message chat entry n st =
  (Return n, st,
   [log_no_identity entry]).
Proof.
  intros H. unfold loop_body.
  destruct (item_id_of entry) as [[|c s]|]; try done.
Qed.

(** An entry whose identifier is in the sent set: nothing happens. *)
Lemma loop_body_already_sent chat entry x n st :
  item_id_of entry = Some x -> truthy x = true -> x ∈ sent_item_ids st ->
  loop_body send_message chat entry n st = (Return n, st, []).
Proof.
  intros Hid Hx Hin. unfold loop_body. rewrite Hid.
  destruct x as [|c s]; [done|].
  unfold bind, get. rewrite bool_decide_eq_false_2; [done|]. by intros ?.
Qed.

(** A new entry without a title: [entry.title] raises before any send. *)
Lemma loop_body_no_title chat entry x n st :
  item_id_of entry = Some x -> truthy x = true -> x ∉ sent_item_ids st ->
  entry !! "title" = None ->
  loop_body send_message chat entry n st =
  (Raise (Exception "object has no attribute 'title'"), st, []).
Proof.
  intros Hid Hx Hin Ht. unfold loop_body. rewrite Hid.
  destruct x as [|c s]; [done|].
  unfold bind, get. rewrite bool_decide_eq_true_2 by done.
  unfold getattr. rewrite Ht. done.
Qed.

(** A new entry with a title: what the body does, by the answers of the
    endpoint and the state of the file. *)
Lemma loop_body_new chat entry x t n st :
  item_id_of entry = Some x -> truthy x = true -> x ∉ sent_item_ids st ->
  entry !! "title" = Some t ->
  loop_body send_message chat entry n st =
  let full := SendMessage chat (full_of entry) HTML (Some false) in
  let short := SendMessage chat (short_of entry) HTML None in
  let denied := permission_denied in
  match send_message (bot st) chat (full_of entry) HTML (Some false) with
  | (Return _, b1) =>
      if disk_writable st
      then (Return (S n), recorded x b1 st, [log_new t; full (Return tt)])
      else (Return n, half_recorded x b1 st,
            [log_new t; full (Return tt); log_send_error entry denied])
  | (Raise e, b1) =>
      if is_too_long e then
        match send_message b1 chat (short_of entry) HTML None with
        | (Return _, b2) =>
            if disk_writable st
            then (Return (S n), recorded x b2 st,
                  [log_new t; full (Raise e); log_send_error entry e; short (Return tt)])
            else (Return n, half_recorded x b2 st,
                  [log_new t; full (Raise e); log_send_error entry e; short (Return tt);
                   log_short_error entry denied])
        | (Raise e2, b2) =>
            (Return n, set_bot b2 st,
             [log_new t; full (Raise e); log_send_error entry e; short (Raise e2);
              log_short_error entry e2])
        end
      else (Return n, set_bot b1 st, [log_new t; full (Raise e); log_send_error entry e])
  end.
Proof.
  intros Hid Hx Hin Ht. unfold loop_body. rewrite Hid.
  destruct x as [|c s]; [done|].
  unfold bind at 1, get. rewrite bool_decide_eq_true_2 by done.
  unfold getattr. rewrite Ht.
  unfold full_of, short_of, log_new, log_send_error, log_short_error.
  set (T := title_of entry). set (L := link_of entry). set (D := description_of entry).
  set (FM := full_message T L D). set (SM := short_message T L).
  run_monad.
  destruct (send_message (bot st) chat FM HTML (Some false)) as [[[]|e] b1]; run_monad.
  - destruct (disk_writable st) eqn:Hw; run_monad; done.
  - destruct (is_too_long e) eqn:Hlong; run_monad; [|done].
    destruct (send_message b1 chat SM HTML None) as [[[]|e2] b2]; run_monad.
    + destruct (disk_writable st) eqn:Hw; run_monad; done.
    + done.
Qed.

End Runs.

(** ** The sent set only grows *)

Section Cycle.

Context {Bot : Type}.
Variable send_message :
  Bot -> string -> string -> ParseMode -> option bool -> result unit * Bot.

Implicit Types (st : state Bot) (entry : gmap string string) (n : nat).

Lemma entry_cases entry st : entry_case entry st.
Proof.
  destruct (item_id_of entry) as [x|] eqn:Hid; [|by apply NoIdentity; rewrite Hid].
  destruct (truthy x) eqn:Hx; [|by apply NoIdentity; rewrite Hid].
  destruct (decide (x ∈ sent_item_ids st)) as [Hin|Hin]; [by eapply AlreadySent|].
  destruct (entry !! "title") as [t|] eqn:Ht; [by eapply NewTitled | by eapply NewNoTitle].
Qed.

Lemma loop_body_mono chat entry n st r st' ev :
  loop_body send_message chat entry n st = (r, st', ev) ->
  sent_item_ids st ⊆ sent_item_ids st'.
Proof.
  destruct (entry_cases entry st) as [H|x Hid Hx Hin|x Hid Hx Hin Ht|x t Hid Hx Hin Ht].
  - rewrite loop_body_no_identity by done. by intros [= _ <- _].
  - erewrite loop_body_already_sent by done. by intros [= _ <- _].
  - erewrite loop_body_no_title by done. by intros [= _ <- _].
  - erewrite loop_body_new by done. cbv zeta.
    destruct (send_message (bot st) chat (full_of entry) HTML (Some false))
      as [[[]|e] b1].
    + destruct (disk_writable st); intros [= _ <- _]; simpl; set_solver.
    + destruct (is_too_long e); [|by intros [= _ <- _]].
      destruct (send_message b1 chat (short_of entry) HTML None) as [[[]|e2] b2];
        [destruct (disk_writable st)|]; intros [= _ <- _]; simpl; set_solver.
Qed.

Lemma for_in_mono chat (l : list (gmap string string)) n st r st' ev :
  for_in l (loop_body send_message chat) n st = (r, st', ev) ->
  sent_item_ids st ⊆ sent_item_ids st'.
Proof.
  revert n st r st' ev. induction l as [|entry l IH]; intros n st r st' ev; simpl.
  - by intros [= _ <- _].
  - unfold bind.
    destruct (loop_body send_message chat entry n st) as [[[a|e] s1] ev1] eqn:Hb.
    + destruct (for_in l (loop_body send_message chat) a s1) as [[r2 s2] ev2] eqn:Hl.
      intros [= _ <- _]. apply loop_body_mono in Hb. apply IH in Hl. set_solver.
    + intros [= _ <- _]. by apply loop_body_mono in Hb.
Qed.

(** ** Entries that leave no trace *)

Lemma no_warnings_app (ev1 ev2 : list event) :
  no_warnings (ev1 ++ ev2) = no_warnings ev1 ++ no_warnings ev2.
Proof. unfold no_warnings. apply List.filter_app. Qed.

Lemma agree_refl {A} (x : result A * state Bot * list event) : agree x x.
Proof. by repeat split. Qed.

Lemma bind_agree {A B} (m m' : M Bot A) (k : A -> M Bot B) st :
  agree (m st) (m' st) -> agree (bind m k st) (bind m' k st).
Proof.
  unfold agree, bind.
  destruct (m st) as [[r1 s1] ev1], (m' st) as [[r2 s2] ev2]; simpl.
  intros (-> & -> & Hev). destruct r2 as [a|e]; [|done].
  destruct (k a s2) as [[r s] ev]; simpl.
  by rewrite !no_warnings_app, Hev.
Qed.

Lemma try_except_agree {A} (m m' : M Bot A) (h : exn -> M Bot A) st :
  agree (m st) (m' st) -> agree (try_except m h st) (try_except m' h st).
Proof.
  unfold agree, try_except.
  destruct (m st) as [[r1 s1] ev1], (m' st) as [[r2 s2] ev2]; simpl.
  intros (-> & -> & Hev). destruct r2 as [a|e]; [done|].
  destruct (h e s2) as [[r s] ev]; simpl.
  by rewrite !no_warnings_app, Hev.
Qed.

Lemma bind_agree_r {A B} (m : M Bot A) (k k' : A -> M Bot B) st :
  (forall a st1 ev1, m st = (Return a, st1, ev1) -> agree (k a st1) (k' a st1)) ->
  agree (bind m k st) (bind m k' st).
Proof.
  intros H. unfold bind. destruct (m st) as [[[a|e] s1] ev1]; [|apply agree_refl].
  specialize (H a s1 ev1 eq_refl). unfold agree in *.
  destruct (k a s1) as [[r s] ev], (k' a s1) as [[r' s'] ev']; simpl in *.
  destruct H as (-> & -> & Hev). by rewrite !no_warnings_app, Hev.
Qed.

(** Dropping an inert entry from the list the loop runs over changes
    neither the outcome, nor the final state, nor the events other than
    warnings. *)
Lemma for_in_drop_inert chat (l1 l2 : list (gmap string string)) entry n st :
  inert send_message (sent_item_ids st) entry ->
  agree (for_in (l1 ++ entry :: l2) (loop_body send_message chat) n st)
        (for_in (l1 ++ l2) (loop_body send_message chat) n st).
Proof.
  intros Hinert. rewrite !for_in_app. apply bind_agree_r.
  intros a st1 ev1 Hrun. apply for_in_mono in Hrun.
  destruct (Hinert chat a st1 Hrun) as (ev & Hbody & Hev).
  simpl. unfold bind. rewrite Hbody.
  destruct (for_in l2 (loop_body send_message chat) a st1) as [[r s] ev2].
  unfold agree; simpl. by rewrite no_warnings_app, Hev.
Qed.

Variable TARGET_CHAT_ID : option string.

(** The same for the whole poll cycle: a feed with an inert entry and
    the feed without it give cycles that agree. *)
Lemma check_rss_feed_drop_inert (fp fp' : string -> result FeedParserDict)
    (f : FeedParserDict) (es1 es2 : list (gmap string string)) entry context st :
  fp RSS_FEED_URL = Return f ->
  entries f = es1 ++ entry :: es2 ->
  fp' RSS_FEED_URL = Return (with_entries f (es1 ++ es2)) ->
  inert send_message (sent_item_ids st) entry ->
  agree (check_rss_feed send_message fp TARGET_CHAT_ID context st)
        (check_rss_feed send_message fp' TARGET_CHAT_ID context st).
Proof.
  intros Hfp Hes Hfp' Hinert. unfold check_rss_feed.
  destruct (negb (default false (chat_id_confirmed context))
            && negb (truthy_opt TARGET_CHAT_ID)); [apply agree_refl|].
  destruct (if truthy_opt TARGET_CHAT_ID then TARGET_CHAT_ID else user_chat_id context)
    as [[|c chat]|]; try apply agree_refl.
  pose proof (for_in_drop_inert (String c chat) (rev es2) (rev es1) entry 0%nat st Hinert)
    as Hag.
  run_monad. rewrite Hfp, Hfp'. simpl.
  destruct (bozo f); [apply agree_refl|].
  rewrite Hes, !rev_app_distr. simpl. rewrite <- !app_assoc. simpl.
  destruct (for_in (rev es2 ++ entry :: rev es1) _ _ st) as [[r1 s1] ev1].
  destruct (for_in (rev es2 ++ rev es1) _ _ st) as [[r2 s2] ev2].
  destruct Hag as (Hr & Hs & Hev). simpl in Hr, Hs, Hev. subst r2 s2.
  destruct r1 as [k|e]; [destruct (0 <? k)%nat|]; unfold agree; simpl;
    rewrite !no_warnings_app, Hev; done.
Qed.

(** An entry without a usable identifier is inert. *)
Lemma no_identity_inert S0 entry :
  truthy_opt (item_id_of entry) = false -> inert send_message S0 entry.
Proof.
  intros H chat n st _. eexists. split; [by apply loop_body_no_identity | done].
Qed.

(** An entry whose identifier is in [S0] is inert from [S0] on. *)
Lemma already_sent_inert S0 entry x :
  item_id_of entry = Some x -> x ∈ S0 -> inert send_message S0 entry.
Proof.
  intros Hid Hin chat n st Hsub.
  destruct (truthy x) eqn:Hx.
  - exists []. split; [|done]. eapply loop_body_already_sent; [done..|set_solver].
  - eexists. split; [apply loop_body_no_identity; by rewrite Hid | done].
Qed.

End Cycle.

(** ** Claims about skipped and dropped entries *)

Lemma sends_no_warnings (ev : list event) : sends (no_warnings ev) = sends ev.
Proof.
  unfold sends, no_warnings. induction ev as [|[[]|] ev IH]; simpl; congruence.
Qed.

(** C1 -- No duplicate delivery. In any poll cycle, an entry of the feed
    whose identifier is in the in-memory sent set when the cycle starts
    is skipped: the cycle has the same outcome, the same final state
    (sent set, file, endpoint) and the same calls of the endpoint and
    log records (warnings apart) as the cycle on the feed without that
    entry; and wherever the loop reaches the entry, its body makes no
    call of the endpoint and leaves the state, hence the store, as it
    is. *)
Theorem no_duplicate_delivery {Bot : Type}
    (send_message :
       Bot -> string -> string -> ParseMode -> option bool -> result unit * Bot)
    (TARGET_CHAT_ID : option string) (fp : string -> result FeedParserDict)
    (f : FeedParserDict) (es1 es2 : list (gmap string string))
    (entry : gmap string string) (x : string) (context : bot_data)
    (st : state Bot) :
  fp RSS_FEED_URL = Return f ->
  entries f = es1 ++ entry :: es2 ->
  item_id_of entry = Some x ->
  x ∈ sent_item_ids st ->
  agree (check_rss_feed send_message fp TARGET_CHAT_ID context st)
        (check_rss_feed send_message
           (fun _ => Return (with_entries f (es1 ++ es2))) TARGET_CHAT_ID context st)
  /\ forall chat n (st' : state Bot),
       sent_item_ids st ⊆ sent_item_ids st' ->
       exists ev, loop_body send_message chat entry n st' = (Return n, st', ev)
                  /\ sends ev = [].
Proof.
  intros Hfp Hes Hid Hin.
  assert (inert send_message (sent_item_ids st) entry) as Hinert
    by by eapply already_sent_inert.
  split.
  - by eapply check_rss_feed_drop_inert.
  - intros chat n st' Hsub. destruct (Hinert chat n st' Hsub) as (ev & Hb & Hev).
    exists ev. split; [done|]. by rewrite <- sends_no_warnings, Hev.
Qed.

Lemma no_duplicate_delivery_witness :
  "urn:1" ∈ sent_item_ids (restarted ["urn:1"]) /\
  agree (check_rss_feed always_ok (parsed [entry_new; entry_old]) None started
           (restarted ["urn:1"]))
        (check_rss_feed always_ok
           (fun _ => Return (with_entries
                               {| bozo := false; bozo_exception := "";
                                  entries := [entry_new; entry_old] |}
                               ([entry_new] ++ [])))
           None started (restarted ["urn:1"])).
Proof.
  assert ("urn:1" ∈ sent_item_ids (restarted ["urn:1"])) as Hin
    by (apply (bool_decide_unpack _); vm_compute; exact I).
  split; [exact Hin|].
  apply (no_duplicate_delivery always_ok None (parsed [entry_new; entry_old])
           {| bozo := false; bozo_exception := ""; entries := [entry_new; entry_old] |}
           [entry_new] [] entry_old "urn:1" started (restarted ["urn:1"])).
  - reflexivity.
  - reflexivity.
  - reflexivity.
  - exact Hin.
Defined.

(** C8 -- Missing identity. An entry whose id is empty (or absent) and
    whose link is empty (or absent) is dropped: wherever the loop
    reaches it, the body calls no send, leaves the state (sent set,
    file, endpoint) and the counter of delivered items as they are,
    and logs one warning, no error; and the whole cycle agrees with the
    cycle on the feed without the entry on its outcome, its final state
    and all its events other than warnings, error records and the
    final count included. *)
Theorem missing_identity_dropped {Bot : Type}
    (send_message :
       Bot -> string -> string -> ParseMode -> option bool -> result unit * Bot)
    (TARGET_CHAT_ID : option string) (fp : string -> result FeedParserDict)
    (f : FeedParserDict) (es1 es2 : list (gmap string string))
    (entry : gmap string string) (context : bot_data) (st : state Bot) :
  fp RSS_FEED_URL = Return f ->
  entries f = es1 ++ entry :: es2 ->
  (entry !! "id" = None \/ entry !! "id" = Some "") ->
  (entry !! "link" = None \/ entry !! "link" = Some "") ->
  (forall chat n (st' : state Bot),
     loop_body send_message chat entry n st' =
     (Return n, st', [log_no_identity entry]))
  /\ agree (check_rss_feed send_message fp TARGET_CHAT_ID context st)
           (check_rss_feed send_message
              (fun _ => Return (with_entries f (es1 ++ es2)))
              TARGET_CHAT_ID context st).
Proof.
  intros Hfp Hes Hid Hlink.
  assert (truthy_opt (item_id_of entry) = false) as Hno.
  { unfold item_id_of. destruct Hid as [-> | ->]; [|done].
    by destruct Hlink as [-> | ->]. }
  split.
  - intros chat n st'. by apply loop_body_no_identity.
  - eapply check_rss_feed_drop_inert; [done..|]. by apply no_identity_inert.
Qed.

Lemma missing_identity_dropped_witness :
  (forall chat n (st' : state unit),
     loop_body always_ok chat entry_anonymous n st' =
     (Return n, st', [log_no_identity entry_anonymous]))
  /\ agree (check_rss_feed always_ok (parsed [entry_new; entry_anonymous; entry_old])
              None started first_run)
           (check_rss_feed always_ok
              (fun _ => Return (with_entries
                                  {| bozo := false; bozo_exception := "";
                                     entries := [entry_new; entry_anonymous; entry_old] |}
                                  ([entry_new] ++ [entry_old])))
              None started first_run).
Proof.
  apply (missing_identity_dropped always_ok None
           (parsed [entry_new; entry_anonymous; entry_old])
           {| bozo := false; bozo_exception := "";
              entries := [entry_new; entry_anonymous; entry_old] |}
           [entry_new] [entry_old] entry_anonymous started first_run).
  - reflexivity.
  - reflexivity.
  - right. reflexivity.
  - right. reflexivity.
Defined.

(** C9 -- Identity fallback only on an absent key. For an entry whose
    ["id"] field is present and empty and whose ["link"] field is not
    empty, the identifier is the empty id, not the link, and the entry
    is dropped as one without identity: the body sends nothing, changes
    neither state nor counter and logs the warning; the cycle agrees
    with the cycle on the feed without the entry. *)
Theorem empty_id_not_replaced_by_link {Bot : Type}
    (send_message :
       Bot -> string -> string -> ParseMode -> option bool -> result unit * Bot)
    (TARGET_CHAT_ID : option string) (fp : string -> result FeedParserDict)
    (f : FeedParserDict) (es1 es2 : list (gmap string string))
    (entry : gmap string string) (l : string) (context : bot_data)
    (st : state Bot) :
  fp RSS_FEED_URL = Return f ->
  entries f = es1 ++ entry :: es2 ->
  entry !! "id" = Some "" ->
  entry !! "link" = Some l -> l <> "" ->
  item_id_of entry = Some "" /\ item_id_of entry <> Some l
  /\ (forall chat n (st' : state Bot),
        loop_body send_message chat entry n st' =
        (Return n, st', [log_no_identity entry]))
  /\ agree (check_rss_feed send_message fp TARGET_CHAT_ID context st)
           (check_rss_feed send_message
              (fun _ => Return (with_entries f (es1 ++ es2)))
              TARGET_CHAT_ID context st).
Proof.
  intros Hfp Hes Hid Hlink Hl.
  assert (item_id_of entry = Some "") as Hitem by (unfold item_id_of; by rewrite Hid).
  assert (truthy_opt (item_id_of entry) = false) as Hno by by rewrite Hitem.
  split; [done|]. split; [rewrite Hitem; congruence|]. split.
  - intros chat n st'. by apply loop_body_no_identity.
  - eapply check_rss_feed_drop_inert; [done..|]. by apply no_identity_inert.
Qed.

Lemma empty_id_not_replaced_by_link_witness :
  item_id_of entry_empty_id = Some ""
  /\ item_id_of entry_empty_id <> Some "http://example.org/9"
  /\ (forall chat n (st' : state unit),
        loop_body always_ok chat entry_empty_id n st' =
        (Return n, st', [log_no_identity entry_empty_id]))
  /\ agree (check_rss_feed always_ok (parsed [entry_empty_id; entry_old])
              None started first_run)
           (check_rss_feed always_ok
              (fun _ => Return (with_entries
                                  {| bozo := false; bozo_exception := "";
                                     entries := [entry_empty_id; entry_old] |}
                                  ([] ++ [entry_old])))
              None started first_run).
Proof.
  apply (empty_id_not_replaced_by_link always_ok None
           (parsed [entry_empty_id; entry_old])
           {| bozo := false; bozo_exception := "";
              entries := [entry_empty_id; entry_old] |}
           [] [entry_old] entry_empty_id "http://example.org/9" started first_run).
  - reflexivity.
  - reflexivity.
  - reflexivity.
  - reflexivity.
  - discriminate.
Defined.

(** ** No error escapes a poll cycle *)

Lemma failures_logged_app (ev1 ev2 : list event) :
  failures_logged ev1 = true -> failures_logged ev2 = true ->
  failures_logged (ev1 ++ ev2) = true.
Proof.
  intros H1 H2. induction ev1 as [|e ev1 IH]; [done|].
  destruct e as [lv msg|c t pm pv [[]|e]]; simpl in *; try by apply IH.
  destruct ev1 as [|[[]|] ev1]; try done. by apply IH.
Qed.

Section Failures.

Context {Bot : Type}.
Variable send_message :
  Bot -> string -> string -> ParseMode -> option bool -> result unit * Bot.

Implicit Types (st : state Bot) (entry : gmap string string) (n : nat).

Lemma loop_body_failures_logged chat entry n st r st' ev :
  loop_body send_message chat entry n st = (r, st', ev) ->
  failures_logged ev = true.
Proof.
  destruct (entry_cases entry st) as [H|x Hid Hx Hin|x Hid Hx Hin Ht|x t Hid Hx Hin Ht].
  - rewrite loop_body_no_identity by done. by intros [= _ _ <-].
  - erewrite loop_body_already_sent by done. by intros [= _ _ <-].
  - erewrite loop_body_no_title by done. by intros [= _ _ <-].
  - erewrite loop_body_new by done. cbv zeta.
    destruct (send_message (bot st) chat (full_of entry) HTML (Some false))
      as [[[]|e] b1].
    + destruct (disk_writable st); by intros [= _ _ <-].
    + destruct (is_too_long e); [|by intros [= _ _ <-]].
      destruct (send_message b1 chat (short_of entry) HTML None) as [[[]|e2] b2];
        [destruct (disk_writable st)|]; by intros [= _ _ <-].
Qed.

Lemma for_in_failures_logged chat (l : list (gmap string string)) n st r st' ev :
  for_in l (loop_body send_message chat) n st = (r, st', ev) ->
  failures_logged ev = true.
Proof.
  revert n st r st' ev. induction l as [|entry l IH]; intros n st r st' ev; simpl.
  - by intros [= _ _ <-].
  - unfold bind.
    destruct (loop_body send_message chat entry n st) as [[[a|e] s1] ev1] eqn:Hb.
    + destruct (for_in l (loop_body send_message chat) a s1) as [[r2 s2] ev2] eqn:Hl.
      intros [= _ _ <-]. apply failures_logged_app; [|by eapply IH].
      by eapply loop_body_failures_logged.
    + intros [= _ _ <-]. by eapply loop_body_failures_logged.
Qed.

End Failures.

(** A poll cycle, case by case: no destination, a fetch that raised, a
    feed flagged as ill-formed, and the loop over the entries. *)
Lemma check_rss_feed_cases {Bot : Type}
    (send_message :
       Bot -> string -> string -> ParseMode -> option bool -> result unit * Bot)
    (feedparser_parse : string -> result FeedParserDict)
    (TARGET_CHAT_ID : option string) (context : bot_data) (st : state Bot) :
  match destination TARGET_CHAT_ID context with
  | None =>
      exists lv msg,
        check_rss_feed send_message feedparser_parse TARGET_CHAT_ID context st
        = (Return tt, st, [Log lv msg])
  | Some chat =>
      check_rss_feed send_message feedparser_parse TARGET_CHAT_ID context st =
      match feedparser_parse RSS_FEED_URL with
      | Raise e => (Return tt, st, [log_checking; log_cycle_error e])
      | Return f =>
          if bozo f
          then (Return tt, st,
                [log_checking;
                 Log ERROR ("Error parsing RSS feed: " +:+ bozo_exception f)])
          else
            let '(r, st', ev) :=
              for_in (rev (entries f)) (loop_body send_message chat) 0%nat st in
            (Return tt, st', log_checking :: ev ++ [log_closing chat r])
      end
  end.
Proof.
  unfold destination, check_rss_feed.
  destruct (negb (default false (chat_id_confirmed context))
            && negb (truthy_opt TARGET_CHAT_ID)); [by eexists _, _|].
  destruct (if truthy_opt TARGET_CHAT_ID then TARGET_CHAT_ID else user_chat_id context)
    as [[|c chat]|]; [by eexists _, _| |by eexists _, _].
  run_monad.
  destruct (feedparser_parse RSS_FEED_URL) as [f|e]; simpl; [|done].
  destruct (bozo f); simpl; [done|].
  destruct (for_in (rev (entries f)) _ _ st) as [[[k|e] s] ev]; simpl; [|done].
  by destruct (0 <? k)%nat.
Qed.

(** C7 -- No error escapes a poll cycle. Whatever the endpoint answers
    (exceptions included), whatever [feedparser.parse] gives (a feed,
    well-formed or not, or an exception), whatever the entries, the
    configuration and the state of the store (a file that cannot be
    written included), [check_rss_feed] returns normally. The failures
    are in the log: a call of the endpoint that raised is followed at
    once by an error record, and a cycle with a destination ends with an
    error record when the fetch raised, when the feed is flagged as
    ill-formed, and when an exception left the loop. *)
Theorem no_error_escapes {Bot : Type}
    (send_message :
       Bot -> string -> string -> ParseMode -> option bool -> result unit * Bot)
    (feedparser_parse : string -> result FeedParserDict)
    (TARGET_CHAT_ID : option string) (context : bot_data) (st : state Bot) :
  exists st' ev,
    check_rss_feed send_message feedparser_parse TARGET_CHAT_ID context st
    = (Return tt, st', ev)
    /\ failures_logged ev = true
    /\ forall chat, destination TARGET_CHAT_ID context = Some chat ->
         match feedparser_parse RSS_FEED_URL with
         | Raise e => last ev = Some (log_cycle_error e)
         | Return f =>
             if bozo f
             then last ev =
                  Some (Log ERROR ("Error parsing RSS feed: " +:+ bozo_exception f))
             else forall e s evl,
                    for_in (rev (entries f)) (loop_body send_message chat) 0%nat st
                      = (Raise e, s, evl) ->
                    last ev = Some (log_cycle_error e)
         end.
Proof.
  pose proof (check_rss_feed_cases send_message feedparser_parse TARGET_CHAT_ID
                context st) as Hrun.
  destruct (destination TARGET_CHAT_ID context) as [chat|].
  - rewrite Hrun. clear Hrun.
    destruct (feedparser_parse RSS_FEED_URL) as [f|e].
    + destruct (bozo f).
      * eexists _, _. split; [done|]. split; [done|]. by intros ? [= <-].
      * destruct (for_in (rev (entries f)) _ _ st) as [[r s] ev] eqn:Hloop.
        eexists _, _. split; [done|]. split.
        -- apply (failures_logged_app [_]); [done|].
           apply failures_logged_app; [by eapply for_in_failures_logged|].
           by destruct r as [k|e]; [simpl; destruct (0 <? k)%nat|].
        -- intros ? [= <-] e s' evl Hraise. rewrite Hloop in Hraise.
           injection Hraise as -> _ _. by rewrite last_cons, last_snoc.
    + eexists _, _. split; [done|]. split; [done|]. by intros ? [= <-].
  - destruct Hrun as (lv & msg & ->). eexists _, _. split; [done|]. split; [|done].
    by destruct lv.
Qed.

(** ** Message composition *)

Lemma last_char_append (a b : string) :
  b <> "" -> last_char (a +:+ b) = last_char b.
Proof.
  intros Hb. induction a as [|c a IH]; [done|].
  rewrite append_cons. simpl. rewrite IH.
  destruct (a +:+ b) eqn:Hab; [|done].
  destruct a; [by rewrite append_nil_l in Hab | by rewrite append_cons in Hab].
Qed.

Lemma len_title_block (title : string) :
  len (title_block title) = 9 + len (html_escape title).
Proof.
  unfold title_block. rewrite !len_append.
  change (len "<b>") with 3. change (len "</b>") with 4. change (len nl) with 1. lia.
Qed.

Lemma len_short_message (title link : string) :
  len (short_message title link) = 33 + len (html_escape title) + len (html_escape link).
Proof.
  unfold short_message. rewrite !len_append.
  change (len "<b>") with 3. change (len "</b>") with 4. change (len nl) with 1.
  change (len "<a href='") with 9. change (len "'>Read more</a>") with 15. lia.
Qed.

Lemma len_replace (c : ascii) (r s : string) :
  len (replace c r s) = len s + (len r - 1) * Z.of_nat (count_char c s).
Proof.
  induction s as [|c' s IH]; simpl; [unfold len; simpl; lia|].
  destruct (Ascii.eqb c' c).
  - rewrite len_append, IH. unfold len. simpl String.length. lia.
  - unfold len in *. simpl String.length. lia.
Qed.

Lemma count_char_append (c : ascii) (a b : string) :
  count_char c (a +:+ b) = (count_char c a + count_char c b)%nat.
Proof.
  induction a as [|c' a IH]; [done|]. rewrite append_cons. simpl. rewrite IH. lia.
Qed.

Lemma count_char_replace (c' c : ascii) (r s : string) :
  Ascii.eqb c c' = false ->
  count_char c' (replace c r s) =
  (count_char c' s + count_char c' r * count_char c s)%nat.
Proof.
  intros Hne. induction s as [|d s IH]; simpl; [lia|].
  destruct (Ascii.eqb d c) eqn:Hd.
  - apply Ascii.eqb_eq in Hd as ->. rewrite Hne, count_char_append, IH. lia.
  - simpl. rewrite IH. lia.
Qed.

(** [html.escape] lengthens a string by its [escape_growth]. *)
Lemma len_html_escape (s : string) : len (html_escape s) = len s + escape_growth s.
Proof.
  unfold html_escape, escape_growth. cbv zeta.
  rewrite !len_replace, !count_char_replace by done.
  change (len "&amp;") with 5. change (len "&lt;") with 4.
  change (len "&gt;") with 4. change (len "&quot;") with 6.
  change (len "&#x27;") with 6.
  simpl count_char. lia.
Qed.

(** A string without the five characters that [html.escape] replaces
    keeps its length. *)
Lemma len_html_escape_plain (s : string) :
  escape_growth s = 0 -> len (html_escape s) = len s.
Proof. intros H. rewrite len_html_escape. lia. Qed.

(** The length of the full form when the summary is cut: the budget is
    used up, and the rest of the message is what it is. *)
Lemma len_full_message_truncated (title link description : string) :
  max_desc_len title link < len description ->
  0 <= max_desc_len title link ->
  len (full_message title link description) =
  if truthy link
  then MAX_MESSAGE_LENGTH - 21 + (len (html_escape link) - len link)
  else MAX_MESSAGE_LENGTH - 27.
Proof.
  intros Hlong Hpos. unfold full_message. fold (title_block title).
  fold (max_desc_len title link).
  assert (truthy description = true) as -> by (apply truthy_len; lia).
  destruct (Z.gtb_spec (len description) (max_desc_len title link)) as [_|?]; [|lia].
  assert (len link = 0 \/ truthy link = true) as Hl.
  { destruct link; [by left | by right]. }
  destruct (truthy link) eqn:Htl.
  - rewrite !len_append, len_slice_to_nonneg by lia.
    change (len "...") with 3. change (len nl) with 1.
    change (len "<a href=") with 8. change (len dq) with 1.
    change (len ">Read more</a>") with 14.
    unfold max_desc_len. lia.
  - destruct Hl as [Hl|?]; [|done].
    rewrite !len_append, len_slice_to_nonneg by lia.
    change (len "...") with 3. change (len nl) with 1.
    change (len "No link available.") with 18.
    unfold max_desc_len in *. lia.
Qed.

(** C3, as amended -- Truncation bound. For every entry whose summary is
    longer than the computed budget, when that budget is not negative
    and escaping lengthens the link by at most 21 characters, the
    composed full-form message is at most [MAX_MESSAGE_LENGTH] long. *)
Theorem truncation_bound (title link description : string) :
  max_desc_len title link < len description ->
  0 <= max_desc_len title link ->
  len (html_escape link) <= len link + 21 ->
  len (full_message title link description) <= MAX_MESSAGE_LENGTH.
Proof.
  intros Hlong Hpos Hesc. rewrite len_full_message_truncated by done.
  destruct (truthy link); lia.
Qed.

(** In terms of the characters of the link: the bound holds when the
    link has, say, at most five ampersands and no other character that
    [html.escape] replaces. *)
Lemma truncation_bound_by_growth (title link description : string) :
  max_desc_len title link < len description ->
  0 <= max_desc_len title link ->
  escape_growth link <= 21 ->
  len (full_message title link description) <= MAX_MESSAGE_LENGTH.
Proof.
  intros Hlong Hpos Hesc. rewrite len_full_message_truncated by done.
  rewrite len_html_escape. destruct (truthy link); lia.
Qed.

Example full_length_plain_link : len (full_of entry_long_summary) = 4075.
Proof. vm_compute. reflexivity. Qed.

Example full_length_no_link : len (full_of entry_long_summary_no_link) = 4069.
Proof. vm_compute. reflexivity. Qed.

Lemma truncation_bound_witness :
  len (full_message (title_of entry_long_summary) (link_of entry_long_summary)
         (description_of entry_long_summary)) <= MAX_MESSAGE_LENGTH.
Proof.
  apply (truncation_bound (title_of entry_long_summary) (link_of entry_long_summary)
           (description_of entry_long_summary)).
  - vm_compute. reflexivity.
  - vm_compute. discriminate.
  - vm_compute. discriminate.
Defined.

(** C3, as stated, fails: with a title of 4100 characters the budget is
    negative, a summary of one character is longer than it, and the
    composed message has 4132 characters. *)
Lemma truncation_bound_counterexample :
  max_desc_len (title_of entry_long_title) (link_of entry_long_title)
    < len (description_of entry_long_title)
  /\ ~ (len (full_of entry_long_title) <= MAX_MESSAGE_LENGTH).
Proof. split; [vm_compute; reflexivity | vm_compute; intros H; by apply H]. Qed.

(** The budget counts the link as it is, the message carries it
    escaped: with six ampersands in the link and a non-negative budget,
    the composed message has 4099 characters. *)
Lemma truncation_misses_escaped_link :
  0 <= max_desc_len (title_of entry_query_link) (link_of entry_query_link)
  /\ max_desc_len (title_of entry_query_link) (link_of entry_query_link)
     < len (description_of entry_query_link)
  /\ len (full_of entry_query_link) = 4099.
Proof. repeat split; vm_compute; (reflexivity || discriminate). Qed.

(** ** The oversize fallback *)

Lemma sent_texts_sends (ev : list event) : sent_texts (sends ev) = sent_texts ev.
Proof. unfold sends. induction ev as [|[] ev IH]; simpl; congruence. Qed.

Section Fallback.

Context {Bot : Type}.
Variable send_message :
  Bot -> string -> string -> ParseMode -> option bool -> result unit * Bot.

Implicit Types (st : state Bot) (entry : gmap string string) (n : nat).

(** When the endpoint reports the full form as too long, the body makes
    exactly two calls: the full form, then the short form. *)
Lemma loop_body_fallback chat entry x t n st e b1 :
  item_id_of entry = Some x -> truthy x = true -> x ∉ sent_item_ids st ->
  entry !! "title" = Some t ->
  send_message (bot st) chat (full_of entry) HTML (Some false) = (Raise e, b1) ->
  is_too_long e = true ->
  exists r st' ev,
    loop_body send_message chat entry n st = (r, st', ev)
    /\ sends ev =
       [SendMessage chat (full_of entry) HTML (Some false) (Raise e);
        SendMessage chat (short_of entry) HTML None
          (send_message b1 chat (short_of entry) HTML None).1].
Proof.
  intros Hid Hx Hin Ht Hfull Hlong.
  erewrite loop_body_new by done. cbv zeta. rewrite Hfull, Hlong.
  destruct (send_message b1 chat (short_of entry) HTML None) as [[[]|e2] b2].
  - destruct (disk_writable st); by eexists _, _, _.
  - by eexists _, _, _.
Qed.


End Fallback.

(** C4, as amended -- Fallback correctness. For every entry whose
    full-form send fails with an oversize report, the next call of the
    endpoint is for the same entry and carries its short form, which is
    made of the title and the link only; the short form has length 33
    plus the lengths of the escaped title and of the escaped link, so
    it is at most [MAX_MESSAGE_LENGTH] long exactly when these two
    lengths add up to at most 4063. *)
Theorem fallback_uses_short_form {Bot : Type}
    (send_message :
       Bot -> string -> string -> ParseMode -> option bool -> result unit * Bot)
    (chat : string) (entry : gmap string string) (x t : string) (n : nat)
    (st : state Bot) (e : exn) (b1 : Bot) :
  item_id_of entry = Some x -> truthy x = true -> x ∉ sent_item_ids st ->
  entry !! "title" = Some t ->
  send_message (bot st) chat (full_of entry) HTML (Some false) = (Raise e, b1) ->
  is_too_long e = true ->
  (exists r st' ev,
     loop_body send_message chat entry n st = (r, st', ev)
     /\ sends ev =
        [SendMessage chat (full_of entry) HTML (Some false) (Raise e);
         SendMessage chat (short_message (title_of entry) (link_of entry)) HTML None
           (send_message b1 chat (short_of entry) HTML None).1])
  /\ len (short_message (title_of entry) (link_of entry)) =
     33 + len (html_escape (title_of entry)) + len (html_escape (link_of entry))
  /\ (len (short_message (title_of entry) (link_of entry)) <= MAX_MESSAGE_LENGTH
      <-> len (html_escape (title_of entry)) + len (html_escape (link_of entry))
          <= 4063).
Proof.
  intros Hid Hx Hin Ht Hfull Hlong. split; [|split].
  - by eapply loop_body_fallback.
  - apply len_short_message.
  - rewrite len_short_message. unfold MAX_MESSAGE_LENGTH. lia.
Qed.

Lemma fallback_uses_short_form_witness :
  exists r st' ev,
    loop_body telegram "42" entry_query_link 0%nat first_run = (r, st', ev)
    /\ sent_texts ev = [full_of entry_query_link; short_of entry_query_link].
Proof.
  destruct (fallback_uses_short_form telegram "42" entry_query_link "urn:5" "t"
              0%nat first_run (Exception "Message is too long") tt)
    as ((r & st' & ev & Hrun & Hsends) & _).
  - reflexivity.
  - reflexivity.
  - apply (bool_decide_unpack _). vm_compute. exact I.
  - reflexivity.
  - vm_compute. reflexivity.
  - vm_compute. reflexivity.
  - exists r, st', ev. split; [exact Hrun|].
    rewrite <- sent_texts_sends, Hsends. reflexivity.
Defined.

(** C4, as stated, fails: the short form of an entry with a title of
    4100 characters has 4133 characters. *)
Lemma short_form_bound_counterexample :
  ~ (len (short_of entry_long_title) <= MAX_MESSAGE_LENGTH).
Proof. vm_compute. intros H. by apply H. Qed.

(** The fallback is no guarantee: for the entry with the long title the
    endpoint refuses the short form as well, and nothing is recorded. *)
Example fallback_refused_as_well :
  let '(r, st', ev) := loop_body telegram "42" entry_long_title 0%nat first_run in
  r = Return 0%nat
  /\ sent_texts ev = [full_of entry_long_title; short_of entry_long_title]
  /\ failures_logged ev = true
  /\ sent_item_ids st' = ∅ /\ disk st' = None.
Proof. vm_compute. repeat split. Qed.

(** C10 -- The short form always renders a link anchor. For every
    entry, the short form is the escaped title in bold followed by an
    anchor around the escaped link; it never ends with the
    ["No link available."] footer, which is how the full form of an
    entry without a link ends, and for such an entry the anchor has an
    empty address; and this text is what the fallback sends. *)
Theorem short_form_always_anchor (entry : gmap string string) :
  short_of entry =
    "<b>" +:+ html_escape (title_of entry) +:+ "</b>" +:+ nl +:+ nl +:+
    "<a href='" +:+ html_escape (link_of entry) +:+ "'>Read more</a>"
  /\ (forall p, short_of entry <> p +:+ "No link available.")
  /\ (link_of entry = "" ->
      short_of entry =
        "<b>" +:+ html_escape (title_of entry) +:+ "</b>" +:+ nl +:+ nl +:+
        "<a href=''>Read more</a>"
      /\ exists p, full_of entry = p +:+ "No link available.")
  /\ (forall {Bot : Type}
        (send_message :
           Bot -> string -> string -> ParseMode -> option bool -> result unit * Bot)
        chat x t n (st : state Bot) e b1,
        item_id_of entry = Some x -> truthy x = true -> x ∉ sent_item_ids st ->
        entry !! "title" = Some t ->
        send_message (bot st) chat (full_of entry) HTML (Some false) = (Raise e, b1) ->
        is_too_long e = true ->
        exists r st' ev outcome,
          loop_body send_message chat entry n st = (r, st', ev)
          /\ sends ev =
             [SendMessage chat (full_of entry) HTML (Some false) (Raise e);
              SendMessage chat
                ("<b>" +:+ html_escape (title_of entry) +:+ "</b>" +:+ nl +:+ nl +:+
                 "<a href='" +:+ html_escape (link_of entry) +:+ "'>Read more</a>")
                HTML None outcome]).
Proof.
  split; [reflexivity|]. split; [|split].
  - intros p Heq. apply (f_equal last_char) in Heq. revert Heq.
    unfold short_of, short_message.
    rewrite <- !append_assoc. by rewrite !last_char_append.
  - intros Hl. unfold short_of, full_of, short_message, full_message. rewrite Hl.
    split; [reflexivity|]. simpl.
    destruct (truthy (description_of entry)); eexists; by rewrite <- ?append_assoc.
  - intros Bot send_message chat x t n st e b1 Hid Hx Hin Ht Hfull Hlong.
    destruct (loop_body_fallback send_message chat entry x t n st e b1)
      as (r & st' & ev & Hrun & Hsends); [done..|].
    by exists r, st', ev, (send_message b1 chat (short_of entry) HTML None).1.
Qed.

Lemma short_form_always_anchor_witness :
  short_of entry_no_link =
    "<b>no link</b>" +:+ nl +:+ nl +:+ "<a href=''>Read more</a>"
  /\ exists r st' ev,
       loop_body always_too_long "42" entry_no_link 0%nat first_run = (r, st', ev)
       /\ sent_texts ev =
          [full_of entry_no_link;
           "<b>no link</b>" +:+ nl +:+ nl +:+ "<a href=''>Read more</a>"].
Proof.
  destruct (short_form_always_anchor entry_no_link) as (_ & _ & Hempty & Hrun).
  destruct (Hempty eq_refl) as [Hshort _].
  split; [exact Hshort|].
  destruct (Hrun unit always_too_long "42" "urn:8" "no link" 0%nat first_run
              (Exception "Message is too long") tt)
    as (r & st' & ev & outcome & Hbody & Hsends).
  - reflexivity.
  - reflexivity.
  - apply (bool_decide_unpack _). vm_compute. exact I.
  - reflexivity.
  - reflexivity.
  - reflexivity.
  - exists r, st', ev. split; [exact Hbody|].
    rewrite <- sent_texts_sends, Hsends. reflexivity.
Defined.

(** ** What gets recorded *)

(** Membership in, and inclusion between, lists written out. *)
Ltac in_list :=
  intros; rewrite ?elem_of_cons, ?elem_of_app, ?elem_of_nil in *; intuition auto.

Lemma delivered_weaken x (es es' : list (gmap string string)) ev ev1 ev2 :
  delivered x es ev -> (forall entry, entry ∈ es -> entry ∈ es') ->
  delivered x es' (ev1 ++ ev ++ ev2).
Proof.
  intros (entry & chat & pm & pv & text & Hin & Hid & Htext & Hev) Hsub.
  exists entry, chat, pm, pv, text. repeat split; [by apply Hsub|done..|].
  rewrite !elem_of_app. auto.
Qed.


Section Recording.

Context {Bot : Type}.
Variable send_message :
  Bot -> string -> string -> ParseMode -> option bool -> result unit * Bot.

Implicit Types (st : state Bot) (entry : gmap string string) (n : nat).

(** The body either leaves set and file alone, or it records the id of
    its entry after the endpoint accepted one of the entry's forms. *)
Lemma loop_body_recorded chat entry n st r st' ev :
  loop_body send_message chat entry n st = (r, st', ev) ->
  (sent_item_ids st' = sent_item_ids st /\ disk st' = disk st)
  \/ exists x, delivered x [entry] ev
       /\ sent_item_ids st' = {[ x ]} ∪ sent_item_ids st
       /\ (disk st' = disk st \/ disk st' = append_lines (disk st) [x]).
Proof.
  destruct (entry_cases entry st) as [H|x Hid Hx Hin|x Hid Hx Hin Ht|x t Hid Hx Hin Ht].
  - rewrite loop_body_no_identity by done. intros [= _ <- _]. by left.
  - erewrite loop_body_already_sent by done. intros [= _ <- _]. by left.
  - erewrite loop_body_no_title by done. intros [= _ <- _]. by left.
  - erewrite loop_body_new by done. cbv zeta.
    destruct (send_message (bot st) chat (full_of entry) HTML (Some false))
      as [[[]|e] b1].
    + destruct (disk_writable st); intros [= _ <- <-]; right; exists x; simpl.
      * split; [|split; [done|by right]].
        exists entry, chat, HTML, (Some false), (full_of entry).
        repeat split; [by constructor|done|by left|in_list].
      * split; [|split; [done|by left]].
        exists entry, chat, HTML, (Some false), (full_of entry).
        repeat split; [by constructor|done|by left|in_list].
    + destruct (is_too_long e); [|intros [= _ <- _]; by left].
      destruct (send_message b1 chat (short_of entry) HTML None) as [[[]|e2] b2];
        [|intros [= _ <- _]; by left].
      destruct (disk_writable st); intros [= _ <- <-]; right; exists x; simpl.
      * split; [|split; [done|by right]].
        exists entry, chat, HTML, None, (short_of entry).
        repeat split; [by constructor|done|by right|in_list].
      * split; [|split; [done|by left]].
        exists entry, chat, HTML, None, (short_of entry).
        repeat split; [by constructor|done|by right|in_list].
Qed.

(** Over the loop: every id that enters the sent set, and every line
    that is appended to the file, is the id of an entry of the list one
    of whose forms the endpoint accepted. *)
Lemma for_in_recorded chat (l : list (gmap string string)) n st r st' ev :
  for_in l (loop_body send_message chat) n st = (r, st', ev) ->
  (forall y, y ∈ sent_item_ids st' -> y ∈ sent_item_ids st \/ delivered y l ev)
  /\ exists ids, disk st' = append_lines (disk st) ids
                 /\ forall y, y ∈ ids -> delivered y l ev.
Proof.
  revert n st r st' ev. induction l as [|entry l IH]; intros n st r st' ev; simpl.
  - intros [= _ <- _]. split; [by left|]. exists []. split; [done|]. in_list.
  - unfold bind.
    destruct (loop_body send_message chat entry n st) as [[[a|e] s1] ev1] eqn:Hb.
    + destruct (for_in l (loop_body send_message chat) a s1) as [[r2 s2] ev2] eqn:Hl.
      intros [= _ <- <-]. apply IH in Hl as (Hset & ids & Hdisk & Hids).
      assert (forall y, delivered y l ev2 -> delivered y (entry :: l) (ev1 ++ ev2)) as Hw2.
      { intros y Hd. apply (delivered_weaken _ _ (entry :: l) _ ev1 []) in Hd;
          [by rewrite app_nil_r in Hd|in_list]. }
      assert (forall y, delivered y [entry] ev1 -> delivered y (entry :: l) (ev1 ++ ev2))
        as Hw1.
      { intros y Hd. apply (delivered_weaken _ _ (entry :: l) _ [] ev2) in Hd;
          [done|in_list]. }
      apply loop_body_recorded in Hb as [[Hs Hd]|(x & Hdel & Hs & Hd)].
      * split.
        -- intros y Hy. rewrite <- Hs. destruct (Hset y Hy); auto.
        -- exists ids. rewrite <- Hd. split; [done|]. auto.
      * split.
        -- intros y Hy. destruct (Hset y Hy) as [Hy1|Hy1]; [|auto].
           rewrite Hs in Hy1. apply elem_of_union in Hy1 as [Hy1|Hy1]; [|auto].
           apply elem_of_singleton in Hy1 as ->. auto.
        -- destruct Hd as [Hd|Hd].
           ++ exists ids. rewrite <- Hd. split; [done|]. auto.
           ++ exists (x :: ids). rewrite Hdisk, Hd. split; [done|].
              intros y [->|Hy]%elem_of_cons; auto.
    + intros [= _ <- <-].
      apply loop_body_recorded in Hb as [[Hs Hd]|(x & Hdel & Hs & Hd)].
      * split; [intros y Hy; left; by rewrite <- Hs|].
        exists []. split; [done|]. in_list.
      * assert (delivered x (entry :: l) ev1) as Hdel'.
        { apply (delivered_weaken _ _ (entry :: l) _ [] []) in Hdel;
            [by rewrite app_nil_r in Hdel|in_list]. }
        split.
        -- intros y Hy. rewrite Hs in Hy.
           apply elem_of_union in Hy as [Hy|Hy]; [|auto].
           apply elem_of_singleton in Hy as ->. auto.
        -- destruct Hd as [Hd|Hd].
           ++ exists []. split; [done|]. in_list.
           ++ exists [x]. split; [done|]. intros y ->%list_elem_of_singleton. done.
Qed.

Variable TARGET_CHAT_ID : option string.

(** The same over a poll cycle. *)
Lemma check_rss_feed_recorded (fp : string -> result FeedParserDict) context
    st r st' ev :
  check_rss_feed send_message fp TARGET_CHAT_ID context st = (r, st', ev) ->
  (forall y, y ∈ sent_item_ids st' ->
     y ∈ sent_item_ids st
     \/ exists f, fp RSS_FEED_URL = Return f /\ delivered y (entries f) ev)
  /\ exists ids, disk st' = append_lines (disk st) ids
       /\ forall y, y ∈ ids ->
            exists f, fp RSS_FEED_URL = Return f /\ delivered y (entries f) ev.
Proof.
  assert (forall evs, (r, st', ev) = (Return tt, st, evs) ->
    (forall y, y ∈ sent_item_ids st' ->
       y ∈ sent_item_ids st
       \/ exists f, fp RSS_FEED_URL = Return f /\ delivered y (entries f) ev)
    /\ exists ids, disk st' = append_lines (disk st) ids
         /\ forall y, y ∈ ids ->
              exists f, fp RSS_FEED_URL = Return f /\ delivered y (entries f) ev)
    as Hidle.
  { intros evs [= _ -> _]. split; [by left|]. exists []. split; [done|]. in_list. }
  unfold check_rss_feed.
  destruct (negb (default false (chat_id_confirmed context))
            && negb (truthy_opt TARGET_CHAT_ID)); [intros H; by eapply Hidle|].
  destruct (if truthy_opt TARGET_CHAT_ID then TARGET_CHAT_ID else user_chat_id context)
    as [[|c chat]|]; [intros H; by eapply Hidle| |intros H; by eapply Hidle].
  run_monad.
  destruct (fp RSS_FEED_URL) as [f|e] eqn:Hfp; simpl; [|intros H; by eapply Hidle].
  destruct (bozo f); simpl; [intros H; by eapply Hidle|].
  destruct (for_in (rev (entries f)) _ _ st) as [[rl s] evl] eqn:Hloop.
  apply for_in_recorded in Hloop as (Hset & ids & Hdisk & Hids).
  assert (forall y evb eva, delivered y (rev (entries f)) evl ->
            exists f0, Return f = Return f0
                       /\ delivered y (entries f0) (evb ++ evl ++ eva)) as Hw.
  { intros y evb eva Hd. exists f. split; [done|].
    eapply delivered_weaken; [done|]. intros z Hz.
    by apply elem_of_rev. }
  assert (forall eva, (r, st', ev) = (Return tt, s, Log INFO ("Checking RSS feed: " +:+ RSS_FEED_URL) :: evl ++ eva) ->
    (forall y, y ∈ sent_item_ids st' ->
       y ∈ sent_item_ids st
       \/ exists f0, Return f = Return f0 /\ delivered y (entries f0) ev)
    /\ exists ids, disk st' = append_lines (disk st) ids
         /\ forall y, y ∈ ids ->
              exists f0, Return f = Return f0 /\ delivered y (entries f0) ev) as Hfin.
  { intros eva [= _ -> ->]. split.
    - intros y Hy. destruct (Hset y Hy) as [?|Hd]; [by left|right].
      apply (Hw y [_] eva Hd).
    - exists ids. split; [done|]. intros y Hy. apply (Hw y [_] eva). auto. }
  destruct rl as [k|e]; simpl.
  - destruct (0 <? k)%nat; simpl; intros H; symmetry in H; by eapply Hfin.
  - intros H; symmetry in H; by eapply Hfin.
Qed.

End Recording.

(** ** The order of deliveries *)

Lemma sent_texts_app (ev1 ev2 : list event) :
  sent_texts (ev1 ++ ev2) = sent_texts ev1 ++ sent_texts ev2.
Proof. unfold sent_texts. apply flat_map_app. Qed.

Lemma sent_texts_log (lv : level) (msg : string) (ev : list event) :
  sent_texts (Log lv msg :: ev) = sent_texts ev.
Proof. reflexivity. Qed.

Section Order.

Context {Bot : Type}.
Variable send_message :
  Bot -> string -> string -> ParseMode -> option bool -> result unit * Bot.

Implicit Types (st : state Bot) (entry : gmap string string) (n : nat).

(** The calls the body makes for an entry: none, or the entry's group. *)
Lemma loop_body_texts chat entry n st r st' ev :
  loop_body send_message chat entry n st = (r, st', ev) ->
  sent_texts ev = [] \/ attempt_group entry (sent_texts ev).
Proof.
  destruct (entry_cases entry st) as [H|x Hid Hx Hin|x Hid Hx Hin Ht|x t Hid Hx Hin Ht].
  - rewrite loop_body_no_identity by done. intros [= _ _ <-]. by left.
  - erewrite loop_body_already_sent by done. intros [= _ _ <-]. by left.
  - erewrite loop_body_no_title by done. intros [= _ _ <-]. by left.
  - erewrite loop_body_new by done. cbv zeta. unfold attempt_group.
    destruct (send_message (bot st) chat (full_of entry) HTML (Some false))
      as [[[]|e] b1].
    + destruct (disk_writable st); intros [= _ _ <-]; right; by left.
    + destruct (is_too_long e); [|intros [= _ _ <-]; right; by left].
      destruct (send_message b1 chat (short_of entry) HTML None) as [[[]|e2] b2];
        [destruct (disk_writable st)|]; intros [= _ _ <-]; right; by right.
Qed.

(** Order is never violated: the calls of the loop are the groups of a
    subsequence of the list it runs over, in the order of the list. *)
Lemma for_in_order chat (l : list (gmap string string)) n st r st' ev :
  for_in l (loop_body send_message chat) n st = (r, st', ev) ->
  exists es gs, sublist es l /\ Forall2 attempt_group es gs
                /\ sent_texts ev = concat gs.
Proof.
  revert n st r st' ev. induction l as [|entry l IH]; intros n st r st' ev; simpl.
  - intros [= _ _ <-]. exists [], []. by repeat split; constructor.
  - unfold bind.
    destruct (loop_body send_message chat entry n st) as [[[a|e] s1] ev1] eqn:Hb.
    + destruct (for_in l (loop_body send_message chat) a s1) as [[r2 s2] ev2] eqn:Hl.
      intros [= _ _ <-]. apply IH in Hl as (es & gs & Hsub & Hgs & Hev).
      rewrite sent_texts_app, Hev.
      apply loop_body_texts in Hb as [->|Hg].
      * exists es, gs. split; [by constructor|done].
      * exists (entry :: es), (sent_texts ev1 :: gs).
        split; [by constructor|]. split; [by constructor|done].
    + intros [= _ _ <-]. apply loop_body_texts in Hb as [->|Hg].
      * exists [], []. split; [apply sublist_nil_l|]. split; [constructor|done].
      * exists [entry], [sent_texts ev1].
        split; [constructor; apply sublist_nil_l|].
        split; [constructor; [exact Hg|constructor]|]. simpl. by rewrite app_nil_r.
Qed.

(** A candidate is offered to the endpoint, and the body returns; it
    records at most the candidate's own id. *)
Lemma loop_body_candidate chat entry n st :
  candidate (sent_item_ids st) entry ->
  exists k st' ev,
    loop_body send_message chat entry n st = (Return k, st', ev)
    /\ attempt_group entry (sent_texts ev)
    /\ forall y, y ∈ sent_item_ids st' ->
         y ∈ sent_item_ids st \/ item_id_of entry = Some y.
Proof.
  intros (x & t & Hid & Hx & Hin & Ht).
  erewrite loop_body_new by done. cbv zeta. unfold attempt_group.
  assert (forall y, y ∈ {[x]} ∪ sent_item_ids st ->
            y ∈ sent_item_ids st \/ item_id_of entry = Some y) as Hrec.
  { intros y [->%elem_of_singleton|?]%elem_of_union; auto. }
  destruct (send_message (bot st) chat (full_of entry) HTML (Some false))
    as [[[]|e] b1].
  - destruct (disk_writable st); eexists _, _, _; (split; [done|]);
      (split; [by left|done]).
  - destruct (is_too_long e).
    + destruct (send_message b1 chat (short_of entry) HTML None) as [[[]|e2] b2];
        [destruct (disk_writable st)|]; eexists _, _, _; (split; [done|]);
        (split; [by right|]); first [done | intros y Hy; by left].
    + eexists _, _, _. split; [done|]. split; [by left|]. intros y Hy. by left.
Qed.

(** When every entry of the list is a candidate and no two have the same
    identifier, the loop offers all of them, in the order of the list. *)
Lemma for_in_candidates chat (l : list (gmap string string)) n st :
  Forall (candidate (sent_item_ids st)) l ->
  NoDup (item_id_of <$> l) ->
  exists k st' ev gs,
    for_in l (loop_body send_message chat) n st = (Return k, st', ev)
    /\ Forall2 attempt_group l gs /\ sent_texts ev = concat gs.
Proof.
  revert n st. induction l as [|entry l IH]; intros n st Hall Hnd; simpl.
  - exists n, st, [], []. by repeat split; constructor.
  - apply Forall_cons in Hall as [Hc Hall].
    rewrite fmap_cons in Hnd. apply NoDup_cons in Hnd as [Hnotin Hnd].
    destruct (loop_body_candidate chat entry n st Hc)
      as (k & s1 & ev1 & Hb & Hg & Hrec).
    unfold bind. rewrite Hb.
    destruct (IH k s1) as (k2 & s2 & ev2 & gs & Hl & Hgs & Hev); [|done|].
    + apply Forall_forall. intros e' He'. rewrite Forall_forall in Hall.
      destruct (Hall e' He') as (x' & t' & Hid' & Hx' & Hin' & Ht').
      exists x', t'. repeat split; try done. intros Hy.
      destruct (Hrec x' Hy) as [?|Heq]; [done|].
      apply Hnotin. rewrite Heq, <- Hid'. by apply list_elem_of_fmap_2.
    + rewrite Hl. exists k2, s2, (ev1 ++ ev2), (sent_texts ev1 :: gs).
      split; [done|]. split; [by constructor|].
      rewrite sent_texts_app, Hev. done.
Qed.

End Order.

(** X14 -- Over a poll cycle with a destination and a clean feed: when
    the entries of the feed are candidates with pairwise distinct
    identifiers, the cycle offers all of them to the endpoint, last
    entry of the feed first. *)
Lemma check_rss_feed_order {Bot : Type}
    (send_message :
       Bot -> string -> string -> ParseMode -> option bool -> result unit * Bot)
    (TARGET_CHAT_ID : option string) (fp : string -> result FeedParserDict)
    (chat : string) (context : bot_data) (f : FeedParserDict) (st : state Bot) :
  destination TARGET_CHAT_ID context = Some chat ->
  fp RSS_FEED_URL = Return f -> bozo f = false ->
  Forall (candidate (sent_item_ids st)) (entries f) ->
  NoDup (item_id_of <$> entries f) ->
  exists st' ev gs,
    check_rss_feed send_message fp TARGET_CHAT_ID context st = (Return tt, st', ev)
    /\ Forall2 attempt_group (rev (entries f)) gs
    /\ sent_texts ev = concat gs.
Proof.
  intros Hdest Hfp Hbozo Hall Hnd.
  destruct (for_in_candidates send_message chat (rev (entries f)) 0%nat st)
    as (k & s & ev & gs & Hloop & Hgs & Hev).
  { apply Forall_forall. intros e He. rewrite Forall_forall in Hall.
    apply Hall. by apply elem_of_rev. }
  { assert (rev (entries f) ≡ₚ entries f) as -> by (symmetry; apply Permutation_rev).
    done. }
  pose proof (check_rss_feed_cases send_message fp TARGET_CHAT_ID context st) as Hrun.
  rewrite Hdest, Hfp, Hbozo, Hloop in Hrun.
  eexists _, _, gs. split; [exact Hrun|]. split; [done|].
  unfold log_checking. rewrite sent_texts_log, sent_texts_app, Hev.
  unfold log_closing. destruct (0 <? k)%nat; simpl; by rewrite app_nil_r.
Qed.

(** A candidate without a title ends the loop: what comes after it in
    the list has no part in the run. *)
Lemma for_in_untitled_candidate {Bot : Type}
    (send_message :
       Bot -> string -> string -> ParseMode -> option bool -> result unit * Bot)
    (chat : string) (l1 l2 : list (gmap string string))
    (entry : gmap string string) (x : string) (n : nat) (st : state Bot) :
  item_id_of entry = Some x -> truthy x = true -> entry !! "title" = None ->
  x ∉ sent_item_ids st ->
  (forall e', e' ∈ l1 -> item_id_of e' <> Some x) ->
  for_in (l1 ++ entry :: l2) (loop_body send_message chat) n st
  = for_in (l1 ++ [entry]) (loop_body send_message chat) n st
  /\ exists e st' ev,
       for_in (l1 ++ entry :: l2) (loop_body send_message chat) n st
       = (Raise e, st', ev).
Proof.
  intros Hid Hx Ht Hin Hl1. rewrite !for_in_app. unfold bind.
  destruct (for_in l1 (loop_body send_message chat) n st) as [[[a|e] s1] ev1] eqn:H1.
  - assert (x ∉ sent_item_ids s1) as Hin1.
    { intros Hx1. apply for_in_recorded in H1 as [Hset _].
      destruct (Hset x Hx1) as [?|(e' & ? & ? & ? & ? & He' & Hid' & _)]; [done|].
      by apply (Hl1 e'). }
    simpl. unfold bind. erewrite loop_body_no_title by done.
    split; [done|]. by eexists _, _, _.
  - split; [done|]. by eexists _, _, _.
Qed.

(** X15 -- Over a poll cycle: when an entry of the feed is a candidate
    without a title, and no older entry has its identifier, the cycle is the
    cycle on the feed without the entries newer than it -- none of them
    is offered to the endpoint. *)
Lemma untitled_entry_cuts_off_newer {Bot : Type}
    (send_message :
       Bot -> string -> string -> ParseMode -> option bool -> result unit * Bot)
    (TARGET_CHAT_ID : option string) (fp : string -> result FeedParserDict)
    (f : FeedParserDict) (es1 es2 : list (gmap string string))
    (entry : gmap string string) (x : string) (context : bot_data)
    (st : state Bot) :
  fp RSS_FEED_URL = Return f ->
  entries f = es1 ++ entry :: es2 ->
  item_id_of entry = Some x -> truthy x = true -> entry !! "title" = None ->
  x ∉ sent_item_ids st ->
  (forall e', e' ∈ es2 -> item_id_of e' <> Some x) ->
  check_rss_feed send_message fp TARGET_CHAT_ID context st
  = check_rss_feed send_message
      (fun _ => Return (with_entries f (entry :: es2))) TARGET_CHAT_ID context st.
Proof.
  intros Hfp Hes Hid Hx Ht Hin Hes2.
  pose proof (check_rss_feed_cases send_message fp TARGET_CHAT_ID context st) as H1.
  pose proof (check_rss_feed_cases send_message
                (fun _ => Return (with_entries f (entry :: es2)))
                TARGET_CHAT_ID context st) as H2.
  destruct (destination TARGET_CHAT_ID context) as [chat|] eqn:Hdest.
  - rewrite H1, H2, Hfp. simpl. destruct (bozo f); [done|].
    rewrite Hes, rev_app_distr. simpl. rewrite <- app_assoc. simpl.
    destruct (for_in_untitled_candidate send_message chat (rev es2) (rev es1)
                entry x 0%nat st) as [-> _]; try done.
    intros e' He'. apply Hes2. by apply elem_of_rev.
  - clear H1 H2. unfold check_rss_feed. unfold destination in Hdest.
    destruct (negb (default false (chat_id_confirmed context))
              && negb (truthy_opt TARGET_CHAT_ID)); [done|].
    by destruct (if truthy_opt TARGET_CHAT_ID then TARGET_CHAT_ID
                 else user_chat_id context) as [[|??]|].
Qed.

(** C2 -- Order preservation, at an input where the cycle does not
    follow it through. The feed is [new, mid, old], none sent yet, and
    [mid] has no title; the endpoint accepts everything. The cycle
    sends [old], then [entry.title] raises on [mid] and ends the loop:
    neither [mid] nor [new] is offered to the endpoint, and only the id
    of [old] is recorded. *)
Theorem untitled_entry_ends_cycle :
  let '(r, st', ev) :=
    check_rss_feed always_ok (parsed [entry_new; entry_mid_untitled; entry_old])
      None started first_run in
  r = Return tt
  /\ sent_texts ev = [full_of entry_old]
  /\ sent_item_ids st' = {["urn:1"]}
  /\ disk st' = Some ("urn:1" +:+ nl)
  /\ last ev = Some (Log ERROR
                       "An error occurred during RSS check: object has no attribute 'title'").
Proof. vm_compute. repeat split. Qed.

(** The same feed with the title of [mid] in place is delivered whole,
    oldest first. *)
Lemma titled_entries_in_order :
  let '(r, st', ev) :=
    check_rss_feed always_ok (parsed [entry_new; entry_mid; entry_old])
      None started first_run in
  r = Return tt
  /\ sent_texts ev = [full_of entry_old; full_of entry_mid; full_of entry_new]
  /\ sent_item_ids st' = {["urn:1"; "urn:2"; "urn:3"]}.
Proof. vm_compute. repeat split. Qed.

(** A restart: the store holds the ids of [old] and [mid], the feed has
    [new] and [old]; the cycle sends [new] alone and the store ends with
    the three ids, in memory and in the file. *)
Example idempotent_restart :
  let '(r, st', ev) :=
    check_rss_feed always_ok (parsed [entry_new; entry_old]) None started
      (restarted ["urn:1"; "urn:2"]) in
  r = Return tt
  /\ sent_texts ev = [full_of entry_new]
  /\ sent_item_ids st' = {["urn:1"; "urn:2"; "urn:3"]}
  /\ disk st' = append_lines None ["urn:1"; "urn:2"; "urn:3"].
Proof. vm_compute. repeat split. Qed.

(** ** The sent-item store *)

Lemma universal_newlines_token (x : string) :
  no_line_break x = true -> universal_newlines (x +:+ nl) = x +:+ nl.
Proof.
  induction x as [|c x IH]; [done|]. simpl. intros Hx.
  apply andb_prop in Hx as [Hc Hx]. apply andb_prop in Hc as [_ Hcr].
  rewrite append_cons. simpl.
  destruct (Ascii.eqb c CR); [done|]. by rewrite IH.
Qed.

Lemma universal_newlines_app_nl (a d : string) :
  universal_newlines (a +:+ nl +:+ d) =
  universal_newlines (a +:+ nl) +:+ universal_newlines d.
Proof.
  induction a as [|c a IH]; [done|].
  rewrite !append_cons. simpl.
  destruct (Ascii.eqb c CR).
  - destruct a as [|c' a].
    + done.
    + rewrite !append_cons in *.
      destruct (Ascii.eqb c' LF); [done|]. by rewrite IH, append_cons.
  - by rewrite IH, append_cons.
Qed.

Lemma universal_newlines_ends_nl (a : string) :
  exists u, universal_newlines (a +:+ nl) = u +:+ nl.
Proof.
  induction a as [|c a [u IH]]; [by exists ""|].
  rewrite append_cons. simpl.
  destruct (Ascii.eqb c CR).
  - destruct a as [|c' a].
    + by exists "".
    + rewrite append_cons in *. destruct (Ascii.eqb c' LF).
      * by exists u.
      * exists (String LF u). by rewrite append_cons, <- IH.
  - exists (String c u). by rewrite append_cons, <- IH.
Qed.

Lemma splitlines_nonempty (c : ascii) (s : string) :
  splitlines_keepends (String c s) <> [].
Proof. simpl. destruct (Ascii.eqb c LF); [done|]. by destruct (splitlines_keepends s). Qed.

Lemma splitlines_app_nl (u v : string) :
  splitlines_keepends (u +:+ nl +:+ v) =
  splitlines_keepends (u +:+ nl) ++ splitlines_keepends v.
Proof.
  induction u as [|c u IH]; [done|].
  rewrite !append_cons. simpl. destruct (Ascii.eqb c LF).
  - by rewrite IH.
  - rewrite IH. destruct (splitlines_keepends (u +:+ nl)) as [|l ls] eqn:Hl; [|done].
    exfalso. destruct u; by eapply splitlines_nonempty.
Qed.

Lemma splitlines_token (x : string) :
  no_line_break x = true -> splitlines_keepends (x +:+ nl) = [x +:+ nl].
Proof.
  induction x as [|c x IH]; [done|]. simpl. intros Hx.
  apply andb_prop in Hx as [Hc Hx]. apply andb_prop in Hc as [Hlf _].
  rewrite append_cons. simpl.
  destruct (Ascii.eqb c LF); [done|]. by rewrite IH.
Qed.

(** The lines of a text that continues a file of complete lines come
    after the lines of the file. *)
Lemma file_lines_app (c d : string) :
  complete_lines (Some c) -> file_lines (c +:+ d) = file_lines c ++ file_lines d.
Proof.
  intros [->|[c' ->]]; [done|]. unfold file_lines.
  rewrite append_assoc, universal_newlines_app_nl.
  destruct (universal_newlines_ends_nl c') as [u ->].
  rewrite append_assoc, splitlines_app_nl. done.
Qed.

Lemma length_lstrip (s : string) : (String.length (lstrip s) <= String.length s)%nat.
Proof. induction s as [|c s IH]; simpl; [done|]. destruct (isspace c); simpl; lia. Qed.

Lemma length_rstrip (s : string) : (String.length (rstrip s) <= String.length s)%nat.
Proof.
  induction s as [|c s IH]; simpl; [done|].
  destruct (rstrip s); [destruct (isspace c)|]; simpl in *; lia.
Qed.

Lemma lstrip_fixed (s : string) :
  String.length (lstrip s) = String.length s -> lstrip s = s.
Proof.
  destruct s as [|c s]; simpl; [done|]. destruct (isspace c); [|done].
  pose proof (length_lstrip s). lia.
Qed.

Lemma strip_fixed (x : string) : strip x = x -> lstrip x = x /\ rstrip x = x.
Proof.
  unfold strip. intros H.
  assert (lstrip x = x) as Hl.
  { apply lstrip_fixed. apply (f_equal String.length) in H.
    pose proof (length_rstrip (lstrip x)). pose proof (length_lstrip x). lia. }
  by rewrite Hl in H.
Qed.

Lemma lstrip_append (x s : string) :
  x <> "" -> lstrip x = x -> lstrip (x +:+ s) = x +:+ s.
Proof.
  destruct x as [|c x]; [done|]. intros _. rewrite append_cons. simpl.
  destruct (isspace c); [|done]. intros H. apply (f_equal String.length) in H.
  pose proof (length_lstrip x). simpl in H. lia.
Qed.

Lemma rstrip_all_space (s : string) : all_space s = true -> rstrip s = "".
Proof.
  induction s as [|c s IH]; simpl; [done|].
  intros [Hc Hs]%andb_prop. by rewrite IH, Hc.
Qed.

Lemma rstrip_append_space (a b : string) :
  all_space b = true -> rstrip (a +:+ b) = rstrip a.
Proof.
  intros Hb. induction a as [|c a IH]; [by apply rstrip_all_space|].
  rewrite append_cons. simpl. by rewrite IH.
Qed.

Lemma lstrip_all_space (s : string) : all_space s = true -> lstrip s = "".
Proof.
  induction s as [|c s IH]; simpl; [done|].
  intros [Hc Hs]%andb_prop. by rewrite Hc, IH.
Qed.

Lemma strip_all_space (s : string) : all_space s = true -> strip s = "".
Proof. intros H. unfold strip. by rewrite lstrip_all_space. Qed.

Lemma is_token_spec (x : string) :
  is_token x = true -> x <> "" /\ no_line_break x = true /\ strip x = x.
Proof.
  unfold is_token. intros [[Hx Hnl]%andb_prop Hs]%andb_prop.
  repeat split; [by destruct x|done|by apply String.eqb_eq].
Qed.

(** A token written on a line of its own is read back as it is. *)
Lemma strip_token_line (x : string) : is_token x = true -> strip (x +:+ nl) = x.
Proof.
  intros (Hx & _ & [Hl Hr]%strip_fixed)%is_token_spec. unfold strip.
  rewrite lstrip_append by done. by rewrite rstrip_append_space.
Qed.

Lemma parse_sent_items_app (c d : string) :
  complete_lines (Some c) ->
  parse_sent_items (c +:+ d) = parse_sent_items c ∪ parse_sent_items d.
Proof.
  intros Hc. unfold parse_sent_items. rewrite file_lines_app by done.
  rewrite filter_app, map_app. apply list_to_set_app_L.
Qed.

Lemma parse_sent_items_token (x : string) :
  is_token x = true -> parse_sent_items (x +:+ nl) = {[ x ]}.
Proof.
  intros Hx. pose proof (is_token_spec x Hx) as (Hne & Hnl & _).
  unfold parse_sent_items, file_lines.
  rewrite universal_newlines_token, splitlines_token by done.
  rewrite filter_cons_True by (rewrite strip_token_line by done; by destruct x).
  rewrite filter_nil. simpl. rewrite strip_token_line by done.
  apply (right_id_L ∅ (∪)).
Qed.

Lemma parse_sent_items_nonempty (content y : string) :
  y ∈ parse_sent_items content -> y <> "".
Proof.
  unfold parse_sent_items. intros Hy%elem_of_list_to_set.
  apply list_elem_of_In, in_map_iff in Hy as (line & <- & Hin).
  apply list_elem_of_In, list_elem_of_filter in Hin as [Ht _].
  by destruct (strip line).
Qed.

Lemma all_space_universal_newlines (s : string) :
  all_space s = true -> all_space (universal_newlines s) = true.
Proof.
  induction s as [|c s IH]; [done|]. intros [Hc Hs]%andb_prop.
  specialize (IH Hs). cbn [universal_newlines].
  destruct (Ascii.eqb c CR).
  - destruct s as [|c' s]; [done|]. destruct (Ascii.eqb c' LF); [done|].
    by apply andb_true_intro.
  - by apply andb_true_intro.
Qed.

Lemma all_space_splitlines (s : string) :
  all_space s = true -> Forall (fun l => all_space l = true) (splitlines_keepends s).
Proof.
  induction s as [|c s IH]; simpl; [constructor|]. intros [Hc Hs]%andb_prop.
  specialize (IH Hs). destruct (Ascii.eqb c LF); [by constructor|].
  destruct (splitlines_keepends s) as [|l ls].
  - constructor; [simpl; by rewrite Hc|constructor].
  - apply Forall_cons in IH as [Hl Hls]. constructor; [simpl; by rewrite Hc, Hl|done].
Qed.

(** A text of white space only holds no id. *)
Lemma parse_sent_items_blank (w : string) :
  all_space w = true -> parse_sent_items w = ∅.
Proof.
  intros Hw. unfold parse_sent_items, file_lines.
  pose proof (all_space_splitlines _ (all_space_universal_newlines _ Hw)) as Hall.
  induction Hall as [|l ls Hl Hls IH]; [done|].
  rewrite filter_cons. rewrite strip_all_space by done. simpl. apply IH.
Qed.

Lemma all_space_append (a b : string) :
  all_space a = true -> all_space b = true -> all_space (a +:+ b) = true.
Proof.
  intros Ha Hb. induction a as [|c a IH]; [done|].
  rewrite append_cons. simpl in *. apply andb_prop in Ha as [Hc Ha].
  by rewrite Hc, IH.
Qed.

Section Store.

Context {Bot : Type}.
Implicit Types (st : state Bot).

Lemma save_sent_item_run x st :
  save_sent_item x st =
  if disk_writable st
  then (Return tt, recorded x (bot st) st, [])
  else (Raise permission_denied, half_recorded x (bot st) st, []).
Proof. unfold save_sent_item. run_monad. by destruct (disk_writable st). Qed.

Lemma load_sent_items_no_file st :
  disk st = None ->
  load_sent_items st =
  (Return tt, st,
   [Log INFO ("Loaded " +:+ pretty (size (sent_item_ids st)) +:+
              " sent item IDs from " +:+ SENT_ITEMS_FILE)]).
Proof.
  intros Hd. unfold load_sent_items, os_path_exists. run_monad.
  rewrite Hd. simpl. done.
Qed.

Lemma load_sent_items_file st content st' ev :
  disk st = Some content ->
  load_sent_items st = (Return tt, st', ev) ->
  sent_item_ids st' = parse_sent_items content.
Proof.
  intros Hd. unfold load_sent_items, os_path_exists, read_file. run_monad.
  rewrite Hd. run_monad. rewrite Hd. run_monad.
  destruct (disk_readable st); run_monad; intros H.
  - by injection H as <- _.
  - discriminate.
Qed.

End Store.

(** C5, as amended -- Store round-trip. For every id that is a token
    (not empty, on one line, no white space at either end), recorded
    into a file of complete lines: when the record operation and the
    load that follows complete, the loaded set contains the id. Loading
    ignores blank lines: the loaded set never holds the empty string,
    and a line of white space put between complete lines changes
    nothing. Loading when no file exists leaves the in-memory set as it
    is, the empty set in a process that has just started. *)
Theorem store_round_trip {Bot : Type} (st st1 st2 : state Bot) (x : string)
    (ev1 ev2 : list event) :
  is_token x = true ->
  complete_lines (disk st) ->
  save_sent_item x st = (Return tt, st1, ev1) ->
  load_sent_items st1 = (Return tt, st2, ev2) ->
  x ∈ sent_item_ids st2
  /\ ("" ∉ sent_item_ids st2)
  /\ (forall c1 w c2, complete_lines (Some c1) -> all_space w = true ->
        parse_sent_items (c1 +:+ (w +:+ nl) +:+ c2) = parse_sent_items (c1 +:+ c2))
  /\ (forall st0 : state Bot, disk st0 = None ->
        exists ev, load_sent_items st0 = (Return tt, st0, ev))
  /\ (forall st0 st' : state Bot, forall r ev,
        disk st0 = None -> sent_item_ids st0 = ∅ ->
        load_sent_items st0 = (r, st', ev) -> sent_item_ids st' = ∅).
Proof.
  intros Hx Hc Hsave Hload.
  rewrite save_sent_item_run in Hsave.
  destruct (disk_writable st); [|done]. injection Hsave as <- _.
  pose proof (load_sent_items_file (recorded x (bot st) st) _ _ _ eq_refl Hload) as Hset.
  split; [|split; [|split; [|split]]].
  - rewrite Hset. rewrite parse_sent_items_app.
    + rewrite parse_sent_items_token by done. by apply elem_of_union_r, elem_of_singleton.
    + destruct (disk st) as [c|]; [exact Hc|by left].
  - rewrite Hset. intros Hin. by apply parse_sent_items_nonempty in Hin.
  - intros c1 w c2 Hc1 Hw.
    rewrite !parse_sent_items_app by (done || right; by eexists).
    rewrite (parse_sent_items_blank (w +:+ nl)) by by apply all_space_append.
    by rewrite (left_id_L ∅ (∪)), (parse_sent_items_app c1 c2).
  - intros st0 Hd. eexists. by apply load_sent_items_no_file.
  - intros st0 st' r ev Hd Hs. rewrite load_sent_items_no_file by done.
    by intros [= _ <- _].
Qed.

Lemma store_round_trip_witness :
  "urn:2" ∈ sent_item_ids
              (load_sent_items (save_sent_item "urn:2" (restarted ["urn:1"])).1.2).1.2.
Proof.
  destruct (store_round_trip (restarted ["urn:1"])
              (save_sent_item "urn:2" (restarted ["urn:1"])).1.2
              (load_sent_items (save_sent_item "urn:2" (restarted ["urn:1"])).1.2).1.2
              "urn:2" [] [Log INFO "Loaded 2 sent item IDs from sent_rss_items.txt"])
    as [Hin _].
  - reflexivity.
  - right. exists "urn:1". reflexivity.
  - reflexivity.
  - vm_compute. reflexivity.
  - exact Hin.
Defined.

(** C5, as stated, fails: an id with a space in front is written as it
    is and read back without the space, so the loaded set does not
    contain it. *)
Lemma store_round_trip_counterexample :
  (load_sent_items (save_sent_item " urn:1" first_run).1.2).1.1 = Return tt
  /\ (" urn:1" ∉ sent_item_ids (load_sent_items (save_sent_item " urn:1" first_run).1.2).1.2)
  /\ sent_item_ids (load_sent_items (save_sent_item " urn:1" first_run).1.2).1.2
     = {[ "urn:1" ]}.
Proof.
  split; [vm_compute; reflexivity|]. split.
  - apply (bool_decide_eq_false_1 _). vm_compute. reflexivity.
  - vm_compute. reflexivity.
Qed.

(** * Whole cycles, the handler and start-up *)

(** ** The ledger of a cycle *)

Lemma accepted_app (ev1 ev2 : list event) :
  accepted (ev1 ++ ev2) = accepted ev1 ++ accepted ev2.
Proof. unfold accepted. apply List.filter_app. Qed.

Lemma accepted_log_closing chat r : accepted [log_closing chat r] = [].
Proof. destruct r as [k|e]; simpl; [by destruct (0 <? k)%nat|done]. Qed.

Section Ledger.

Context {Bot : Type}.
Variable send_message :
  Bot -> string -> string -> ParseMode -> option bool -> result unit * Bot.

Implicit Types (st : state Bot) (entry : gmap string string) (n : nat).

(** What one run of the body does to set, file and counter: nothing, or
    one new id, with exactly one accepted send. *)
Lemma loop_body_ledger chat entry n st r st' ev :
  loop_body send_message chat entry n st = (r, st', ev) ->
  disk_writable st' = disk_writable st /\
  ((sent_item_ids st' = sent_item_ids st /\ disk st' = disk st
    /\ accepted ev = [] /\ forall k, r = Return k -> k = n)
   \/ exists x, item_id_of entry = Some x /\ truthy x = true
        /\ (x ∉ sent_item_ids st)
        /\ sent_item_ids st' = {[ x ]} ∪ sent_item_ids st
        /\ length (accepted ev) = 1%nat
        /\ if disk_writable st
           then disk st' = append_lines (disk st) [x] /\ r = Return (S n)
           else disk st' = disk st /\ r = Return n).
Proof.
  destruct (entry_cases entry st) as [H|x Hid Hx Hin|x Hid Hx Hin Ht|x t Hid Hx Hin Ht].
  - rewrite loop_body_no_identity by done. intros [= <- <- <-].
    split; [done|left]. repeat split; congruence.
  - erewrite loop_body_already_sent by done. intros [= <- <- <-].
    split; [done|left]. repeat split; congruence.
  - erewrite loop_body_no_title by done. intros [= <- <- <-].
    split; [done|left]. repeat split; congruence.
  - erewrite loop_body_new by done. cbv zeta.
    destruct (send_message (bot st) chat (full_of entry) HTML (Some false))
      as [[[]|e] b1].
    + destruct (disk_writable st) eqn:Hw; intros [= <- <- <-]; (split; [done|right]);
        exists x; rewrite ?Hw; simpl; repeat split; done.
    + destruct (is_too_long e).
      * destruct (send_message b1 chat (short_of entry) HTML None) as [[[]|e2] b2].
        -- destruct (disk_writable st) eqn:Hw; intros [= <- <- <-];
             (split; [done|right]); exists x; rewrite ?Hw; simpl; repeat split; done.
        -- intros [= <- <- <-]. split; [done|left]. repeat split; congruence.
      * intros [= <- <- <-]. split; [done|left]. repeat split; congruence.
Qed.

(** The same over the loop: the ids that entered the set, in order. *)
Lemma for_in_ledger chat (l : list (gmap string string)) n st r st' ev :
  for_in l (loop_body send_message chat) n st = (r, st', ev) ->
  disk_writable st' = disk_writable st /\
  exists ids, NoDup ids
    /\ (forall y, y ∈ ids ->
          (y ∉ sent_item_ids st) /\ truthy y = true
          /\ exists entry, entry ∈ l /\ item_id_of entry = Some y)
    /\ sent_item_ids st' = list_to_set ids ∪ sent_item_ids st
    /\ length ids = length (accepted ev)
    /\ if disk_writable st
       then disk st' = append_lines (disk st) ids
            /\ forall k, r = Return k -> k = (n + length ids)%nat
       else disk st' = disk st /\ forall k, r = Return k -> k = n.
Proof.
  revert n st r st' ev. induction l as [|entry l IH]; intros n st r st' ev; simpl.
  - intros [= <- <- <-]. split; [done|]. exists []. simpl.
    split; [constructor|]. split; [in_list|]. split; [simpl; by rewrite (left_id_L ∅ (∪))|]. split; [done|].
    destruct (disk_writable st); (split; [done|]); intros k [= <-]; lia.
  - unfold bind.
    destruct (loop_body send_message chat entry n st) as [[[a|e] s1] ev1] eqn:Hb.
    + destruct (for_in l (loop_body send_message chat) a s1) as [[r2 s2] ev2] eqn:Hl.
      intros [= <- <- <-]. apply IH in Hl as (Hw2 & ids & Hnd & Hids & Hset & Hlen & Hd).
      apply loop_body_ledger in Hb as (Hw1 & [(Hs & Hd1 & Hacc & Hk)|
                                              (x & Hid & Hx & Hin & Hs & Hacc & Hd1)]).
      * split; [congruence|]. exists ids. rewrite accepted_app, Hacc. simpl.
        split; [done|]. split.
        { intros y Hy. destruct (Hids y Hy) as (Hy1 & Hy2 & entry' & He & Hy3).
          rewrite Hs in Hy1. repeat split; [done..|]. exists entry'. split; [in_list|done]. }
        split; [by rewrite Hset, Hs|]. split; [done|].
        rewrite Hw1 in Hd. rewrite Hd1 in Hd. rewrite (Hk a eq_refl) in Hd. done.
      * split; [congruence|]. exists (x :: ids). rewrite accepted_app, length_app, Hacc.
        assert (x ∉ ids) as Hxi.
        { intros Hxi. destruct (Hids x Hxi) as (Hy1 & _). apply Hy1. rewrite Hs.
          apply elem_of_union_l, elem_of_singleton. done. }
        split; [by constructor|]. split.
        { intros y [->|Hy]%elem_of_cons.
          - repeat split; [done..|]. exists entry. split; [in_list|done].
          - destruct (Hids y Hy) as (Hy1 & Hy2 & entry' & He & Hy3).
            repeat split; [|done|].
            + intros Hy4. apply Hy1. rewrite Hs. by apply elem_of_union_r.
            + exists entry'. split; [in_list|done]. }
        split; [rewrite Hset, Hs; simpl; by rewrite (assoc_L (∪)), (comm_L (∪) _ {[x]})|].
        split; [simpl; by rewrite Hlen|].
        rewrite Hw1 in Hd. destruct (disk_writable st).
        -- destruct Hd1 as [Hd1 [= ->]]. destruct Hd as [Hd Hk]. rewrite Hd1 in Hd.
           split; [done|]. intros k Hr. rewrite (Hk k Hr). simpl. lia.
        -- destruct Hd1 as [Hd1 [= ->]]. destruct Hd as [Hd Hk]. rewrite Hd1 in Hd. done.
    + intros [= <- <- <-].
      apply loop_body_ledger in Hb as (Hw1 & [(Hs & Hd1 & Hacc & Hk)|
                                              (x & Hid & Hx & Hin & Hs & Hacc & Hd1)]).
      * split; [done|]. exists []. rewrite Hacc. simpl.
        split; [constructor|]. split; [in_list|]. split; [simpl; by rewrite Hs, (left_id_L ∅ (∪))|].
        split; [done|]. destruct (disk_writable st); (split; [done|]); intros k [=].
      * destruct (disk_writable st); destruct Hd1 as [_ [=]].
Qed.

Variable TARGET_CHAT_ID : option string.

(** The same over a poll cycle. *)
Lemma check_rss_feed_ledger (fp : string -> result FeedParserDict) context
    st r st' ev :
  check_rss_feed send_message fp TARGET_CHAT_ID context st = (r, st', ev) ->
  disk_writable st' = disk_writable st /\
  exists ids, NoDup ids
    /\ (forall y, y ∈ ids ->
          (y ∉ sent_item_ids st) /\ truthy y = true
          /\ exists f entry, fp RSS_FEED_URL = Return f /\ entry ∈ entries f
                             /\ item_id_of entry = Some y)
    /\ sent_item_ids st' = list_to_set ids ∪ sent_item_ids st
    /\ length ids = length (accepted ev)
    /\ disk st' = if disk_writable st then append_lines (disk st) ids else disk st.
Proof.
  assert (forall lv1 m1 evs,
            (forall e, e ∈ evs -> exists m, e = Log ERROR m) ->
            (Return tt, st, Log lv1 m1 :: evs) = (r, st', ev) ->
    disk_writable st' = disk_writable st /\
    exists ids, NoDup ids
    /\ (forall y, y ∈ ids ->
          (y ∉ sent_item_ids st) /\ truthy y = true
          /\ exists f entry, fp RSS_FEED_URL = Return f /\ entry ∈ entries f
                             /\ item_id_of entry = Some y)
    /\ sent_item_ids st' = list_to_set ids ∪ sent_item_ids st
    /\ length ids = length (accepted ev)
    /\ disk st' = if disk_writable st then append_lines (disk st) ids else disk st)
    as Hidle.
  { intros lv1 m1 evs Hevs [= <- <- <-]. split; [done|]. exists [].
    split; [constructor|]. split; [in_list|]. split; [simpl; by rewrite (left_id_L ∅ (∪))|].
    split; [|by destruct (disk_writable st)].
    simpl. induction evs as [|e evs IHe]; [done|].
    destruct (Hevs e) as [m ->]; [in_list|]. simpl. apply IHe.
    intros e' He'. apply Hevs. in_list. }
  pose proof (check_rss_feed_cases send_message fp TARGET_CHAT_ID context st) as Hc.
  destruct (destination TARGET_CHAT_ID context) as [chat|].
  - rewrite Hc. clear Hc. destruct (fp RSS_FEED_URL) as [f|e] eqn:Hfp.
    + destruct (bozo f).
      * apply Hidle. intros e [->|[]%elem_of_nil]%elem_of_cons. by eexists.
      * destruct (for_in (rev (entries f)) _ _ st) as [[rl s] evl] eqn:Hloop.
        intros [= <- <- <-].
        apply for_in_ledger in Hloop as (Hw & ids & Hnd & Hids & Hset & Hlen & Hd).
        split; [done|]. exists ids. split; [done|]. split.
        { intros y Hy. destruct (Hids y Hy) as (Hy1 & Hy2 & entry & He & Hy3).
          repeat split; [done..|]. exists f, entry. repeat split; [|done].
          by apply elem_of_rev. }
        split; [done|]. split.
        { change (log_checking :: evl ++ [log_closing chat rl])
            with ([log_checking] ++ evl ++ [log_closing chat rl]).
          rewrite !accepted_app, accepted_log_closing, app_nil_r. done. }
        destruct (disk_writable st); by destruct Hd.
    + apply Hidle. intros e' [->|[]%elem_of_nil]%elem_of_cons. by eexists.
  - destruct Hc as (lv & msg & ->). apply Hidle. intros e []%elem_of_nil.
Qed.

End Ledger.

(** A property of the events that holds of each run of the body from a
    state with [I], [I] being kept, holds of the loop. *)
Lemma for_in_events {Bot : Type}
    (send_message :
       Bot -> string -> string -> ParseMode -> option bool -> result unit * Bot)
    (I : state Bot -> Prop) (P : list event -> Prop) chat :
  P [] -> (forall ev1 ev2, P ev1 -> P ev2 -> P (ev1 ++ ev2)) ->
  (forall entry n st r st' ev, I st ->
     loop_body send_message chat entry n st = (r, st', ev) -> I st' /\ P ev) ->
  forall (l : list (gmap string string)) n st r st' ev, I st ->
    for_in l (loop_body send_message chat) n st = (r, st', ev) -> I st' /\ P ev.
Proof.
  intros Hnil Happ Hbody l. induction l as [|entry l IH]; intros n st r st' ev HI; simpl.
  - by intros [= _ <- <-].
  - unfold bind.
    destruct (loop_body send_message chat entry n st) as [[[a|e] s1] ev1] eqn:Hb.
    + destruct (for_in l (loop_body send_message chat) a s1) as [[r2 s2] ev2] eqn:Hl.
      intros [= _ <- <-]. destruct (Hbody _ _ _ _ _ _ HI Hb) as [HI1 HP1].
      destruct (IH _ _ _ _ _ HI1 Hl) as [HI2 HP2]. auto.
    + intros [= _ <- <-]. by eapply Hbody.
Qed.

Lemma sends_logged_as_errors_app (ev1 ev2 : list event) :
  sends_logged_as_errors ev1 = true -> sends_logged_as_errors ev2 = true ->
  sends_logged_as_errors (ev1 ++ ev2) = true.
Proof.
  intros H1 H2. induction ev1 as [|e ev1 IH]; [done|].
  destruct e as [lv msg|c t pm pv o]; simpl in *; [by apply IH|].
  destruct ev1 as [|[[]|] ev1]; try done. by apply IH.
Qed.

Lemma last_closing (e0 : event) (ev : list event) (e : event) :
  last (e0 :: ev ++ [e]) = Some e.
Proof. change (e0 :: ev ++ [e]) with ((e0 :: ev) ++ [e]). apply last_snoc. Qed.

(** ** Counting deliveries *)

(** X1 -- Over any number of poll cycles, on any feeds, with any
    endpoint and any state of the file, the sent set grows by exactly
    one id for each message that the endpoint accepted: no accepted
    message was for an id that was in the set, or for the id of another
    accepted message of these cycles. *)
Theorem one_new_id_per_accepted_send {Bot : Type}
    (send_message :
       Bot -> string -> string -> ParseMode -> option bool -> result unit * Bot)
    (TARGET_CHAT_ID : option string) (fps : list (string -> result FeedParserDict))
    (context : bot_data) (st : state Bot) r st' ev :
  run_cycles send_message TARGET_CHAT_ID fps context st = (r, st', ev) ->
  size (sent_item_ids st') = (size (sent_item_ids st) + length (accepted ev))%nat.
Proof.
  unfold run_cycles. generalize tt. intros u.
  revert u st r st' ev. induction fps as [|fp fps IH]; intros u st r st' ev; simpl.
  - intros [= _ <- <-]. simpl. lia.
  - unfold bind.
    destruct (check_rss_feed send_message fp TARGET_CHAT_ID context st)
      as [[[a|e] s1] ev1] eqn:Hc;
      apply check_rss_feed_ledger in Hc as (_ & ids & Hnd & Hids & Hset & Hlen & _).
    + destruct (for_in fps _ a s1) as [[r2 s2] ev2] eqn:Hl.
      intros [= _ <- <-]. apply IH in Hl. rewrite Hl, accepted_app, length_app, <- Hlen.
      rewrite Hset, size_union, size_list_to_set by
        (try done; intros y Hy%elem_of_list_to_set; by apply Hids).
      lia.
    + intros [= _ <- <-]. rewrite <- Hlen.
      rewrite Hset, size_union, size_list_to_set by
        (try done; intros y Hy%elem_of_list_to_set; by apply Hids).
      lia.
Qed.

Lemma one_new_id_per_accepted_send_witness :
  exists st' ev,
    run_cycles always_ok None
      [parsed [entry_mid; entry_old]; parsed [entry_new; entry_mid; entry_old]]
      started (restarted ["urn:1"]) = (Return tt, st', ev)
    /\ length (accepted ev) = 2%nat
    /\ size (sent_item_ids st') = 3%nat.
Proof.
  eexists _, _. split; [vm_compute; reflexivity|].
  split; [vm_compute; reflexivity|].
  etrans.
  - eapply (one_new_id_per_accepted_send always_ok None
              [parsed [entry_mid; entry_old]; parsed [entry_new; entry_mid; entry_old]]
              started (restarted ["urn:1"])).
    vm_compute. reflexivity.
  - vm_compute. reflexivity.
Defined.

(** ** Memory and file in step *)

Lemma complete_lines_append_lines (d : option string) (ids : list string) :
  complete_lines d -> complete_lines (append_lines d ids).
Proof.
  revert d. induction ids as [|x ids IH]; intros d Hd; simpl; [done|].
  apply IH. right. exists (default "" d +:+ x). by rewrite append_assoc.
Qed.

Lemma parse_sent_items_empty : parse_sent_items "" = ∅.
Proof. reflexivity. Qed.

(** Loading a file of complete lines after token lines were appended
    gives what the file held before, and the tokens. *)
Lemma parse_sent_items_append_lines (d : option string) (ids : list string) :
  complete_lines d -> Forall (fun x => is_token x = true) ids ->
  parse_sent_items (default "" (append_lines d ids))
  = list_to_set ids ∪ parse_sent_items (default "" d).
Proof.
  revert d. induction ids as [|x ids IH]; intros d Hd Hids; simpl.
  - by rewrite (left_id_L ∅ (∪)).
  - apply Forall_cons in Hids as [Hx Hids]. rewrite IH; [|right|done].
    + assert (complete_lines (Some (default "" d))) as Hc.
      { destruct d; [done|by left]. }
      change (default "" (Some (default "" d +:+ x +:+ nl)))
        with (default "" d +:+ x +:+ nl).
      rewrite (parse_sent_items_app _ _ Hc), (parse_sent_items_token _ Hx).
      apply set_eq. intros y.
      rewrite !elem_of_union, !elem_of_list_to_set, ?elem_of_cons, ?elem_of_singleton.
      tauto.
    + exists (default "" d +:+ x). by rewrite append_assoc.
Qed.

Section StoreRuns.

Context {Bot : Type}.
Implicit Types (st : state Bot).

(** [load_sent_items], by the state of the file. *)
Lemma load_sent_items_run st :
  load_sent_items st =
  match disk st with
  | None =>
      (Return tt, st,
       [Log INFO ("Loaded " +:+ pretty (size (sent_item_ids st)) +:+
                  " sent item IDs from " +:+ SENT_ITEMS_FILE)])
  | Some content =>
      if disk_readable st
      then (Return tt, set_sent_item_ids (parse_sent_items content) st,
            [Log INFO ("Loaded " +:+ pretty (size (parse_sent_items content)) +:+
                       " sent item IDs from " +:+ SENT_ITEMS_FILE)])
      else (Raise permission_denied, st, [])
  end.
Proof.
  unfold load_sent_items, os_path_exists, read_file. run_monad.
  destruct (disk st) as [content|] eqn:Hd; run_monad; [|done].
  rewrite Hd. run_monad. by destruct (disk_readable st).
Qed.

(** A load that completes, in a process whose set is still empty, puts
    the set in step with the file and leaves the file alone. *)
Lemma load_sent_items_in_step st st' ev :
  sent_item_ids st = ∅ ->
  load_sent_items st = (Return tt, st', ev) ->
  sent_item_ids st' = parse_sent_items (default "" (disk st))
  /\ disk st' = disk st.
Proof.
  intros Hs. rewrite load_sent_items_run.
  destruct (disk st) as [content|] eqn:Hd.
  - destruct (disk_readable st); [|done]. intros [= <- _]. simpl. by rewrite Hd.
  - intros [= <- _]. by rewrite Hd, Hs.
Qed.

(** [save_sent_item] over a list of ids, when it goes through. *)
Lemma record_all_run (ids : list string) st st' ev :
  record_all ids st = (Return tt, st', ev) ->
  sent_item_ids st' = list_to_set ids ∪ sent_item_ids st
  /\ disk st' = append_lines (disk st) ids.
Proof.
  unfold record_all. revert st st' ev.
  cut (forall (u u' : unit) st st' ev,
         for_in ids (fun x _ => save_sent_item x) u st = (Return u', st', ev) ->
         sent_item_ids st' = list_to_set ids ∪ sent_item_ids st
         /\ disk st' = append_lines (disk st) ids); [intros H st st' ev; apply H|].
  induction ids as [|x ids IH]; intros u u' st st' ev; simpl.
  - intros [= _ <- _]. by rewrite (left_id_L ∅ (∪)).
  - unfold bind. rewrite save_sent_item_run.
    destruct (disk_writable st); [|done].
    destruct (for_in ids _ tt _) as [[r2 s2] ev2] eqn:Hl.
    intros [= -> -> _]. apply IH in Hl as [Hs Hd]. simpl in Hs, Hd.
    rewrite Hs, Hd. split; [|done].
    apply set_eq. intros y.
    rewrite !elem_of_union, !elem_of_list_to_set, ?elem_of_singleton. tauto.
Qed.

End StoreRuns.

(** ** The chat id as text *)

Lemma pretty_N_go_length (x : N) (s : string) :
  (String.length s <= String.length (pretty_N_go x s))%nat.
Proof.
  revert s. induction (N.lt_wf_0 x) as [x _ IH]; intros s.
  assert (x = 0 \/ 0 < x)%N as [->|Hx] by lia; [by rewrite pretty_N_go_0|].
  rewrite pretty_N_go_step by done.
  etrans; [|apply IH; by apply N.div_lt]. simpl. lia.
Qed.

Lemma pretty_positive_nonempty (p : positive) : pretty p <> "".
Proof.
  unfold pretty, pretty_positive, pretty, pretty_N.
  destruct (decide (N.pos p = 0%N)) as [|_]; [done|].
  rewrite pretty_N_go_step by lia. intros H.
  pose proof (pretty_N_go_length (N.pos p `div` 10)
                (String (pretty_N_char (N.pos p `mod` 10)) "")) as Hl.
  rewrite H in Hl. simpl in Hl. lia.
Qed.

(** [str] of an integer is never empty. *)
Lemma pretty_Z_nonempty (z : Z) : exists c s, pretty z = String c s.
Proof.
  destruct z as [|p|p]; unfold pretty, pretty_Z.
  - by eexists _, _.
  - pose proof (pretty_positive_nonempty p) as H.
    destruct (pretty p) as [|c s]; [done|by eexists _, _].
  - by eexists _, _.
Qed.

(** ** Where a cycle sends *)

Lemma all_sent_to_app chat (ev1 ev2 : list event) :
  all_sent_to chat ev1 -> all_sent_to chat ev2 -> all_sent_to chat (ev1 ++ ev2).
Proof.
  intros H1 H2 c text pm pv o [H|H]%elem_of_app; [by eapply H1|by eapply H2].
Qed.

Lemma all_sent_to_logs chat (ev : list event) :
  (forall e, e ∈ ev -> exists lv m, e = Log lv m) -> all_sent_to chat ev.
Proof. intros H c text pm pv o Hin. by destruct (H _ Hin) as (lv & m & ?). Qed.

Lemma log_closing_log chat r : exists lv m, log_closing chat r = Log lv m.
Proof.
  destruct r as [k|e]; simpl; [destruct (0 <? k)%nat|]; by eexists _, _.
Qed.

Section Destination.

Context {Bot : Type}.
Variable send_message :
  Bot -> string -> string -> ParseMode -> option bool -> result unit * Bot.

Implicit Types (st : state Bot) (entry : gmap string string) (n : nat).

Lemma loop_body_all_sent_to chat entry n st r st' ev :
  loop_body send_message chat entry n st = (r, st', ev) -> all_sent_to chat ev.
Proof.
  intros Hb c text pm pv o. revert Hb.
  destruct (entry_cases entry st) as [H|x Hid Hx Hin|x Hid Hx Hin Ht|x t Hid Hx Hin Ht].
  - rewrite loop_body_no_identity by done. unfold log_no_identity.
    intros [= _ _ <-] Hev. in_list; simplify_eq.
  - erewrite loop_body_already_sent by done. intros [= _ _ <-] Hev. in_list.
  - erewrite loop_body_no_title by done. intros [= _ _ <-] Hev. in_list.
  - erewrite loop_body_new by done. cbv zeta.
    unfold log_new, log_send_error, log_short_error.
    destruct (send_message (bot st) chat (full_of entry) HTML (Some false))
      as [[[]|e] b1].
    + destruct (disk_writable st); intros [= _ _ <-] Hev; in_list; by simplify_eq.
    + destruct (is_too_long e); [|intros [= _ _ <-] Hev; in_list; by simplify_eq].
      destruct (send_message b1 chat (short_of entry) HTML None) as [[[]|e2] b2];
        [destruct (disk_writable st)|]; intros [= _ _ <-] Hev; in_list; by simplify_eq.
Qed.

Variable TARGET_CHAT_ID : option string.

(** Every call of the endpoint in a cycle is for the destination of the
    cycle, in HTML; a cycle without destination makes no call. *)
Lemma check_rss_feed_all_sent_to (fp : string -> result FeedParserDict) context
    st r st' ev :
  check_rss_feed send_message fp TARGET_CHAT_ID context st = (r, st', ev) ->
  match destination TARGET_CHAT_ID context with
  | Some chat => all_sent_to chat ev
  | None => sends ev = []
  end.
Proof.
  pose proof (check_rss_feed_cases send_message fp TARGET_CHAT_ID context st) as Hc.
  destruct (destination TARGET_CHAT_ID context) as [chat|].
  - rewrite Hc. clear Hc. destruct (fp RSS_FEED_URL) as [f|e] eqn:Hfp.
    + destruct (bozo f).
      * intros [= _ _ <-]. apply all_sent_to_logs. unfold log_checking. intros e. in_list;
          subst; by eexists _, _.
      * destruct (for_in (rev (entries f)) _ _ st) as [[rl s] evl] eqn:Hloop.
        intros [= _ _ <-].
        apply (for_in_events send_message (fun _ => True) (all_sent_to chat)) in Hloop
          as [_ Hev]; [|apply all_sent_to_logs; intros e; in_list
                       |apply all_sent_to_app
                       |intros; split; [done|by eapply loop_body_all_sent_to]|done].
        apply (all_sent_to_app chat [log_checking]);
          [apply all_sent_to_logs; unfold log_checking; intros e; in_list; subst;
           by eexists _, _|].
        apply all_sent_to_app; [done|]. apply all_sent_to_logs. intros e. in_list. subst.
        apply log_closing_log.
    + intros [= _ _ <-]. apply all_sent_to_logs.
      unfold log_checking, log_cycle_error. intros e'. in_list; subst; by eexists _, _.
  - destruct Hc as (lv & msg & ->). by intros [= _ _ <-].
Qed.

End Destination.

(** ** Start-up and the handler *)

Section Startup.

Context {Bot : Type}.
Variable TARGET_CHAT_ID TELEGRAM_TOKEN : option string.
Variable build_application : string -> result unit.
Variable register : result unit.

(** [main], outcome by outcome. *)
Lemma main_run (st : state Bot) :
  main TARGET_CHAT_ID TELEGRAM_TOKEN build_application register st =
  if truthy_opt TELEGRAM_TOKEN then
    match load_sent_items st with
    | (Raise e, s, evl) => (Raise e, s, chat_id_warning TARGET_CHAT_ID ++ evl)
    | (Return _, s, evl) =>
        match build_application (default "" TELEGRAM_TOKEN) with
        | Raise e => (Raise e, s, chat_id_warning TARGET_CHAT_ID ++ evl)
        | Return _ =>
            match register with
            | Raise e => (Raise e, s, chat_id_warning TARGET_CHAT_ID ++ evl)
            | Return _ =>
                (Return (Some (if truthy_opt TARGET_CHAT_ID
                               then {| chat_id_confirmed := Some true;
                                       user_chat_id := TARGET_CHAT_ID |}
                               else {| chat_id_confirmed := Some false;
                                       user_chat_id := None |})),
                 s, chat_id_warning TARGET_CHAT_ID ++ evl ++ [Log INFO "Bot starting..."])
            end
        end
    end
  else (Return None, st,
        [Log CRITICAL "BOT_TOKEN environment variable not set. Exiting."]).
Proof.
  unfold main, chat_id_warning.
  destruct (truthy_opt TELEGRAM_TOKEN); simpl; [|by run_monad].
  destruct (truthy_opt TARGET_CHAT_ID); run_monad;
    (destruct (load_sent_items st) as [[[[]|e] s] evl]; [|done]);
    (destruct (build_application (default "" TELEGRAM_TOKEN)) as [[]|e];
       [|by rewrite ?app_nil_r]);
    (destruct register as [[]|e]; simpl; by rewrite ?app_nil_r).
Qed.

End Startup.

Section Start.

Context {Bot : Type}.
Variable reply_text : Bot -> string -> ParseMode -> result unit * Bot.
Variable TARGET_CHAT_ID : option string.
Variable welcome_message : option string -> string.

(** What [/start] leaves in [bot_data] and in the store, whether the
    reply went through or not. *)
Lemma start_run (chat : Z) (a : app Bot) r a' ev :
  start reply_text TARGET_CHAT_ID welcome_message chat a = (r, a', ev) ->
  app_data a' = {| chat_id_confirmed := Some true; user_chat_id := Some (pretty chat) |}
  /\ sent_item_ids (app_state a') = sent_item_ids (app_state a)
  /\ disk (app_state a') = disk (app_state a)
  /\ sends ev = [].
Proof.
  unfold start.
  destruct (reply_text (bot (app_state a)) (welcome_message TARGET_CHAT_ID) MARKDOWN_V2)
    as [[[]|e] b]; by intros [= _ <- <-].
Qed.

(** The destination of the cycles after [/start] from [chat]. *)
Lemma destination_started (chat : Z) :
  destination TARGET_CHAT_ID
    {| chat_id_confirmed := Some true; user_chat_id := Some (pretty chat) |}
  = Some (if truthy_opt TARGET_CHAT_ID then default "" TARGET_CHAT_ID else pretty chat).
Proof.
  unfold destination. simpl.
  destruct TARGET_CHAT_ID as [[|c s]|]; simpl; try done;
    by destruct (pretty_Z_nonempty chat) as (c' & s' & ->).
Qed.

End Start.

(** ** The store across cycles and restarts *)

(** X4 -- A cycle keeps memory and file in step. From a state in which
    the sent set is what the file holds, with a file of complete lines
    that can be written, and a feed whose identifiers are tokens (not
    empty, on one line, no white space at either end), the cycle ends
    in such a state again; and a process that starts on the file then
    (empty set, then a load that completes) has exactly the sent set
    the cycle ended with. *)
Theorem cycle_keeps_store_in_step {Bot : Type}
    (send_message :
       Bot -> string -> string -> ParseMode -> option bool -> result unit * Bot)
    (fp : string -> result FeedParserDict) (TARGET_CHAT_ID : option string)
    (context : bot_data) (st : state Bot) r st' ev :
  in_step st -> disk_writable st = true ->
  (forall f entry y, fp RSS_FEED_URL = Return f -> entry ∈ entries f ->
     item_id_of entry = Some y -> truthy y = true -> is_token y = true) ->
  check_rss_feed send_message fp TARGET_CHAT_ID context st = (r, st', ev) ->
  in_step st'
  /\ forall (s s2 : state Bot) ev2,
       disk s = disk st' -> sent_item_ids s = ∅ ->
       load_sent_items s = (Return tt, s2, ev2) ->
       sent_item_ids s2 = sent_item_ids st'.
Proof.
  intros [Hs Hc] Hw Htok Hrun.
  apply check_rss_feed_ledger in Hrun as (_ & ids & _ & Hids & Hset & _ & Hd).
  rewrite Hw in Hd.
  assert (Forall (fun x => is_token x = true) ids) as Hall.
  { apply Forall_forall. intros y Hy.
    destruct (Hids y Hy) as (_ & Hy2 & f & entry & Hf & He & Hy3). eauto. }
  assert (in_step st') as Hin.
  { split.
    - rewrite Hset, Hd, parse_sent_items_append_lines, Hs by done. done.
    - rewrite Hd. by apply complete_lines_append_lines. }
  split; [done|]. intros s s2 ev2 Hds Hss Hload.
  apply load_sent_items_in_step in Hload as [-> _]; [|done].
  rewrite Hds. symmetry. apply Hin.
Qed.

Lemma cycle_keeps_store_in_step_witness :
  exists st' ev,
    check_rss_feed always_ok (parsed [entry_new; entry_mid; entry_old]) None
      started (restarted ["urn:1"]) = (Return tt, st', ev)
    /\ in_step st'
    /\ sent_item_ids st' = {[ "urn:3"; "urn:2"; "urn:1" ]}.
Proof.
  eexists _, _. split; [vm_compute; reflexivity|].
  split; [|vm_compute; reflexivity].
  eapply proj1.
  eapply (cycle_keeps_store_in_step always_ok (parsed [entry_new; entry_mid; entry_old])
            None started (restarted ["urn:1"]) (Return tt)).
  - split; [vm_compute; reflexivity|]. right. by exists "urn:1".
  - reflexivity.
  - intros f entry y [= <-] He Hid _. simpl in He.
    rewrite !elem_of_cons, elem_of_nil in He.
    destruct He as [->|[->|[->|[]]]]; vm_compute in Hid; injection Hid as <-;
      vm_compute; reflexivity.
  - vm_compute. reflexivity.
Defined.

(** X5 -- Exact round trip of the store. Tokens recorded one after the
    other, from a state in step, leave the state in step: the sent set
    is the old one and the tokens, and a process that starts on the
    file then loads exactly that set, no more and no less. *)
Theorem recorded_tokens_load_exactly {Bot : Type} (ids : list string)
    (st st1 : state Bot) ev1 :
  in_step st -> Forall (fun x => is_token x = true) ids ->
  record_all ids st = (Return tt, st1, ev1) ->
  in_step st1
  /\ sent_item_ids st1 = list_to_set ids ∪ sent_item_ids st
  /\ forall (s s2 : state Bot) ev2,
       disk s = disk st1 -> sent_item_ids s = ∅ ->
       load_sent_items s = (Return tt, s2, ev2) ->
       sent_item_ids s2 = list_to_set ids ∪ sent_item_ids st.
Proof.
  intros [Hs Hc] Hall Hrun. apply record_all_run in Hrun as [Hset Hd].
  assert (in_step st1) as Hin.
  { split.
    - rewrite Hset, Hd, parse_sent_items_append_lines, Hs by done. done.
    - rewrite Hd. by apply complete_lines_append_lines. }
  split; [done|]. split; [done|]. intros s s2 ev2 Hds Hss Hload.
  apply load_sent_items_in_step in Hload as [-> _]; [|done].
  rewrite Hds, <- Hset. symmetry. apply Hin.
Qed.

Lemma recorded_tokens_load_exactly_witness :
  exists st1 ev1,
    record_all ["urn:2"; "urn:3"] (restarted ["urn:1"]) = (Return tt, st1, ev1)
    /\ disk st1 = Some ("urn:1" +:+ nl +:+ "urn:2" +:+ nl +:+ "urn:3" +:+ nl)
    /\ in_step st1.
Proof.
  eexists _, _. split; [vm_compute; reflexivity|].
  split; [vm_compute; reflexivity|].
  eapply proj1.
  eapply (recorded_tokens_load_exactly ["urn:2"; "urn:3"] (restarted ["urn:1"])).
  - split; [vm_compute; reflexivity|]. right. by exists "urn:1".
  - repeat constructor.
  - vm_compute. reflexivity.
Defined.

(** ** Start-up *)



(** X7 -- [main] reaches polling exactly when the token is set, the
    store file is absent or can be read, and the library built the
    application and registered the handler and the job. *)
Theorem main_polls_iff {Bot : Type} (TARGET_CHAT_ID TELEGRAM_TOKEN : option string)
    (build_application : string -> result unit) (register : result unit)
    (st : state Bot) :
  (exists data st' ev,
     main TARGET_CHAT_ID TELEGRAM_TOKEN build_application register st
     = (Return (Some data), st', ev))
  <-> truthy_opt TELEGRAM_TOKEN = true
      /\ (disk st = None \/ disk_readable st = true)
      /\ build_application (default "" TELEGRAM_TOKEN) = Return tt
      /\ register = Return tt.
Proof.
  rewrite main_run, load_sent_items_run. split.
  - intros (data & st' & ev & H). revert H.
    destruct (truthy_opt TELEGRAM_TOKEN); [|done]. split; [done|]. revert H.
    assert (disk st = None \/ disk_readable st = true
            \/ (exists c, disk st = Some c) /\ disk_readable st = false) as [Hd|[Hd|[[c Hd] Hr]]].
    { destruct (disk st); [|by left]. destruct (disk_readable st); [by right; left|].
      right; right. split; [by eexists|done]. }
    + rewrite Hd. destruct (build_application _) as [[]|e]; [|done].
      destruct register as [[]|e]; [|done]. intros _. auto.
    + destruct (disk st); rewrite ?Hd;
        (destruct (build_application _) as [[]|e]; [|done]);
        (destruct register as [[]|e]; [|done]); intros _; auto.
    + by rewrite Hd, Hr.
  - intros (-> & Hd & -> & ->). destruct Hd as [->|Hr]; [by eexists _, _, _|].
    destruct (disk st); rewrite ?Hr; by eexists _, _, _.
Qed.

(** X8 -- A store file that exists and cannot be read stops [main] with
    the permission error of the file, whatever the library would do
    afterwards: nothing is loaded and the state is as it was. Without a
    token, [main] returns after one critical record and does not touch
    the store either. *)
Theorem main_stops_before_polling {Bot : Type}
    (TARGET_CHAT_ID TELEGRAM_TOKEN : option string)
    (build_application : string -> result unit) (register : result unit)
    (st : state Bot) :
  (truthy_opt TELEGRAM_TOKEN = false ->
   main TARGET_CHAT_ID TELEGRAM_TOKEN build_application register st
   = (Return None, st, [Log CRITICAL "BOT_TOKEN environment variable not set. Exiting."]))
  /\ (truthy_opt TELEGRAM_TOKEN = true ->
      (exists content, disk st = Some content) -> disk_readable st = false ->
      exists ev,
        main TARGET_CHAT_ID TELEGRAM_TOKEN build_application register st
        = (Raise permission_denied, st, ev)).
Proof.
  rewrite main_run, load_sent_items_run. split.
  - by intros ->.
  - intros -> [c ->] ->. by eexists.
Qed.

Lemma main_stops_before_polling_witness :
  main (Some "42") None build_ok (Return tt) (cold_start ["urn:1"])
  = (Return None, cold_start ["urn:1"],
     [Log CRITICAL "BOT_TOKEN environment variable not set. Exiting."])
  /\ exists ev,
       main (Some "42") (Some "123:abc") build_ok (Return tt) locked_out
       = (Raise permission_denied, locked_out, ev).
Proof.
  split.
  - apply (main_stops_before_polling (Some "42") None build_ok (Return tt)
             (cold_start ["urn:1"])). reflexivity.
  - apply (main_stops_before_polling (Some "42") (Some "123:abc") build_ok (Return tt)
             locked_out); [reflexivity|by eexists|reflexivity].
Defined.

(** X9 -- Without [CHAT_ID], the [bot_data] that [main] starts polling
    with makes every cycle a skip: whatever the feeds and the endpoint,
    each cycle returns after one warning, fetches and sends nothing and
    leaves the state as it is, until [/start] is used. *)
Theorem cycles_skipped_until_start {Bot : Type}
    (send_message :
       Bot -> string -> string -> ParseMode -> option bool -> result unit * Bot)
    (TARGET_CHAT_ID TELEGRAM_TOKEN : option string)
    (build_application : string -> result unit) (register : result unit)
    (fps : list (string -> result FeedParserDict)) (st st1 : state Bot) data ev1 :
  truthy_opt TARGET_CHAT_ID = false ->
  main TARGET_CHAT_ID TELEGRAM_TOKEN build_application register st
  = (Return (Some data), st1, ev1) ->
  run_cycles send_message TARGET_CHAT_ID fps data st1
  = (Return tt, st1,
     replicate (length fps)
       (Log WARNING "TARGET_CHAT_ID not set and no /start command received yet. Skipping RSS check.")).
Proof.
  intros Ht. rewrite main_run, Ht.
  destruct (truthy_opt TELEGRAM_TOKEN); [|done].
  destruct (load_sent_items st) as [[[[]|e] s] evl]; [|done].
  destruct (build_application _) as [[]|e]; [|done].
  destruct register as [[]|e]; [|done]. intros [= <- <- _].
  unfold run_cycles. induction fps as [|fp fps IH]; simpl; [done|].
  unfold bind at 1, check_rss_feed at 1. simpl. rewrite Ht. simpl.
  unfold logger_warning, emit. by rewrite IH.
Qed.

Lemma cycles_skipped_until_start_witness :
  exists st1,
    run_cycles always_ok None [parsed [entry_old]; parsed [entry_mid; entry_old]]
      {| chat_id_confirmed := Some false; user_chat_id := None |} st1
    = (Return tt, st1,
       replicate 2
         (Log WARNING "TARGET_CHAT_ID not set and no /start command received yet. Skipping RSS check.")).
Proof.
  eexists.
  eapply (cycles_skipped_until_start always_ok None (Some "123:abc") build_ok (Return tt)
            [parsed [entry_old]; parsed [entry_mid; entry_old]] (cold_start ["urn:1"]));
    [reflexivity|vm_compute; reflexivity].
Defined.

(** X10 -- After [/start] from a chat, whether or not the welcome reply
    went through and whatever [bot_data] held before (an earlier
    [/start] included), every message of a cycle goes, in HTML, to the
    chat of [CHAT_ID] when that is set and to the chat of that [/start]
    otherwise; in the latter case no message goes to any other chat.
    [/start] itself sends no feed message and leaves the sent set and
    the file as they are. *)
Theorem start_sets_the_destination {Bot : Type}
    (send_message :
       Bot -> string -> string -> ParseMode -> option bool -> result unit * Bot)
    (reply_text : Bot -> string -> ParseMode -> result unit * Bot)
    (TARGET_CHAT_ID : option string) (welcome_message : option string -> string)
    (fp : string -> result FeedParserDict) (chat : Z) (a a1 a2 : app Bot)
    r1 ev1 r ev :
  start reply_text TARGET_CHAT_ID welcome_message chat a = (r1, a1, ev1) ->
  check_rss_feed_job send_message TARGET_CHAT_ID fp a1 = (r, a2, ev) ->
  sends ev1 = []
  /\ sent_item_ids (app_state a1) = sent_item_ids (app_state a)
  /\ disk (app_state a1) = disk (app_state a)
  /\ all_sent_to (if truthy_opt TARGET_CHAT_ID then default "" TARGET_CHAT_ID
                  else pretty chat) ev
  /\ (truthy_opt TARGET_CHAT_ID = false ->
      forall other : Z, other <> chat ->
        forall c text pm pv outcome,
          SendMessage c text pm pv outcome ∈ ev -> c <> pretty other).
Proof.
  intros Hs Hj. apply start_run in Hs as (Hdata & Hset & Hdisk & Hsends).
  split; [done|]. split; [done|]. split; [done|].
  unfold check_rss_feed_job in Hj.
  destruct (check_rss_feed send_message fp TARGET_CHAT_ID (app_data a1) (app_state a1))
    as [[r' s'] ev'] eqn:Hc. injection Hj as _ _ <-.
  apply check_rss_feed_all_sent_to in Hc.
  rewrite Hdata, destination_started in Hc. split; [done|].
  intros Ht other Hne c text pm pv o Hin. rewrite Ht in Hc.
  destruct (Hc _ _ _ _ _ Hin) as [-> _]. intros Heq.
  by apply (inj pretty) in Heq.
Qed.

Lemma start_sets_the_destination_witness :
  exists a1 a2 ev,
    start reply_down None welcome (-1001234) polling
    = (Raise (Exception "Can't parse entities"), a1, [])
    /\ check_rss_feed_job always_ok None (parsed [entry_old]) a1 = (Return tt, a2, ev)
    /\ sent_texts ev = [full_of entry_old]
    /\ all_sent_to "-1001234" ev.
Proof.
  eexists _, _, _. split; [vm_compute; reflexivity|].
  split; [vm_compute; reflexivity|]. split; [vm_compute; reflexivity|].
  edestruct (fun a1 a2 r1 ev1 r ev =>
               start_sets_the_destination always_ok reply_down None welcome
                 (parsed [entry_old]) (-1001234) polling a1 a2 r1 ev1 r ev)
    as (_ & _ & _ & H & _); [vm_compute; reflexivity|vm_compute; reflexivity|].
  exact H.
Defined.

(** ** Polling the same feed again *)

Lemma sends_app (ev1 ev2 : list event) : sends (ev1 ++ ev2) = sends ev1 ++ sends ev2.
Proof. unfold sends. apply List.filter_app. Qed.

Section Settled.

Context {Bot : Type}.
Variable send_message :
  Bot -> string -> string -> ParseMode -> option bool -> result unit * Bot.
Hypothesis Haccepting : accepting send_message.

Implicit Types (st : state Bot) (entry : gmap string string) (n : nat).

(** After the loop ran over [l] with an endpoint that accepts every
    message, running it again over [l], from any state with the sent
    set it ended with, calls the endpoint no more and leaves the state
    as it is. *)
Lemma for_in_settled chat (l : list (gmap string string)) n st r st' ev :
  for_in l (loop_body send_message chat) n st = (r, st', ev) ->
  forall (s : state Bot) n', sent_item_ids s = sent_item_ids st' ->
    exists r' ev', for_in l (loop_body send_message chat) n' s = (r', s, ev')
                   /\ sends ev' = [].
Proof.
  revert n st r st' ev. induction l as [|entry l IH]; intros n st r st' ev; simpl.
  - intros _ s n' _. eexists _, _. split; reflexivity.
  - unfold bind.
    destruct (entry_cases entry st) as [H|x Hid Hx Hin|x Hid Hx Hin Ht|x t Hid Hx Hin Ht].
    + rewrite loop_body_no_identity by done.
      destruct (for_in l _ n st) as [[r2 s2] ev2] eqn:Hl. intros [= _ <- _] s n' Hs.
      rewrite loop_body_no_identity by done.
      destruct (IH _ _ _ _ _ Hl s n' Hs) as (r' & ev' & -> & Hev).
      eexists _, _. split; [done|]. done.
    + erewrite loop_body_already_sent by done.
      destruct (for_in l _ n st) as [[r2 s2] ev2] eqn:Hl. intros [= _ <- _] s n' Hs.
      pose proof (for_in_mono _ _ _ _ _ _ _ _ Hl) as Hmono.
      erewrite loop_body_already_sent; [|done..|rewrite Hs; by apply Hmono].
      destruct (IH _ _ _ _ _ Hl s n' Hs) as (r' & ev' & -> & Hev).
      eexists _, _. split; [done|]. done.
    + erewrite loop_body_no_title by done. intros [= _ <- _] s n' Hs.
      erewrite loop_body_no_title; [|done..|by rewrite Hs|done].
      eexists _, _. split; reflexivity.
    + erewrite loop_body_new by done. cbv zeta.
      pose proof (Haccepting (bot st) chat (full_of entry) HTML (Some false)) as Hok.
      destruct (send_message (bot st) chat (full_of entry) HTML (Some false))
        as [[[]|e] b1]; [|done].
      assert (forall a s1 ev1,
                sent_item_ids s1 = {[ x ]} ∪ sent_item_ids st ->
                (let '(r, st2, ev2) := for_in l (loop_body send_message chat) a s1 in
                 (r, st2, ev1 ++ ev2)) = (r, st', ev) ->
                forall (s : state Bot) n', sent_item_ids s = sent_item_ids st' ->
                  exists r' ev',
                    (let '(r, st1, ev1) := loop_body send_message chat entry n' s in
                     match r with
                     | Return a =>
                         let '(r0, st2, ev2) :=
                           for_in l (loop_body send_message chat) a st1 in
                         (r0, st2, ev1 ++ ev2)
                     | Raise e => (Raise e, st1, ev1)
                     end) = (r', s, ev') /\ sends ev' = []) as Hgo.
      { intros a s1 ev1 Hs1.
        destruct (for_in l _ a s1) as [[r2 s2] ev2] eqn:Hl. intros [= _ <- _] s n' Hs.
        pose proof (for_in_mono _ _ _ _ _ _ _ _ Hl) as Hmono.
        erewrite loop_body_already_sent; [|done..|].
        - destruct (IH _ _ _ _ _ Hl s n' Hs) as (r' & ev' & -> & Hev).
          eexists _, _. split; [done|]. done.
        - rewrite Hs. apply Hmono. rewrite Hs1.
          by apply elem_of_union_l, elem_of_singleton. }
      destruct (disk_writable st); by eapply Hgo.
Qed.

End Settled.

(** ** The oversize report *)

Lemma lower_append (a b : string) : lower (a +:+ b) = lower a +:+ lower b.
Proof. induction a as [|c a IH]; [done|]. rewrite !append_cons. simpl. by rewrite IH. Qed.

Lemma length_lower (s : string) : String.length (lower s) = String.length s.
Proof. induction s as [|c s IH]; simpl; congruence. Qed.

(** A text whose lower-case form splits in two splits in two itself. *)
Lemma lower_append_inv (t u v : string) :
  lower t = u +:+ v -> exists a b, t = a +:+ b /\ lower a = u /\ lower b = v.
Proof.
  revert t. induction u as [|c u IH]; intros t H.
  - exists "", t. by rewrite !append_nil_l in *.
  - destruct t as [|c' t]; [done|]. rewrite append_cons in H. simpl in H.
    injection H as Hc H. apply IH in H as (a & b & -> & <- & <-).
    exists (String c' a), b. rewrite append_cons. simpl. by rewrite Hc.
Qed.

Lemma prefix_append (n b : string) : String.prefix n (n +:+ b) = true.
Proof.
  induction n as [|c n IH]; [by destruct b|]. rewrite append_cons. simpl.
  by destruct (ascii_dec c c).
Qed.

Lemma prefix_inv (n s : string) :
  String.prefix n s = true -> exists b, s = n +:+ b.
Proof.
  revert s. induction n as [|c n IH]; intros s H; [by exists s|].
  destruct s as [|c' s]; [done|]. simpl in H.
  destruct (ascii_dec c c') as [->|]; [|done].
  apply IH in H as [b ->]. by exists b.
Qed.

Lemma contains_unfold (needle s : string) :
  contains needle s =
  if String.prefix needle s then true
  else match s with
       | EmptyString => false
       | String _ s' => contains needle s'
       end.
Proof. by destruct s. Qed.

(** [needle in s], as a statement on [s]. *)
Lemma contains_spec (needle s : string) :
  contains needle s = true <-> exists a b, s = a +:+ needle +:+ b.
Proof.
  split.
  - induction s as [|c s IH]; rewrite contains_unfold.
    + destruct (String.prefix needle "") eqn:Hp; [|done]. intros _.
      apply prefix_inv in Hp as [b Hb]. by exists "", b.
    + destruct (String.prefix needle (String c s)) eqn:Hp.
      * intros _. apply prefix_inv in Hp as [b Hb]. by exists "", b.
      * intros H. destruct (IH H) as (a & b & ->). by exists (String c a), b.
  - intros (a & b & ->). induction a as [|c a IH].
    + rewrite append_nil_l, contains_unfold, prefix_append. done.
    + rewrite append_cons, contains_unfold, IH. by destruct (String.prefix _ _).
Qed.

(** ** Cycles that deliver nothing *)

(** X11 -- Once a cycle has run with an endpoint that accepts every
    message, a cycle on the same feed sends nothing and leaves the sent
    set, the file and the endpoint as they are: what was delivered is
    not delivered again, whether or not the file could be written. *)
Theorem second_cycle_is_silent {Bot : Type}
    (send_message :
       Bot -> string -> string -> ParseMode -> option bool -> result unit * Bot)
    (fp : string -> result FeedParserDict) (TARGET_CHAT_ID : option string)
    (context : bot_data) (st : state Bot) r st1 ev1 :
  accepting send_message ->
  check_rss_feed send_message fp TARGET_CHAT_ID context st = (r, st1, ev1) ->
  exists ev2,
    check_rss_feed send_message fp TARGET_CHAT_ID context st1 = (Return tt, st1, ev2)
    /\ sends ev2 = [].
Proof.
  intros Hacc.
  pose proof (check_rss_feed_cases send_message fp TARGET_CHAT_ID context st) as Hc.
  pose proof (check_rss_feed_cases send_message fp TARGET_CHAT_ID context st1) as Hc1.
  destruct (destination TARGET_CHAT_ID context) as [chat|].
  - rewrite Hc, Hc1. clear Hc Hc1. destruct (fp RSS_FEED_URL) as [f|e].
    + destruct (bozo f); [intros [= _ <- _]; by eexists|].
      destruct (for_in (rev (entries f)) _ _ st) as [[rl s] evl] eqn:Hloop.
      intros [= _ <- _].
      destruct (for_in_settled send_message Hacc _ _ _ _ _ _ _ Hloop s 0%nat eq_refl)
        as (r' & ev' & -> & Hev).
      eexists. split; [done|].
      change (log_checking :: ev' ++ [log_closing chat r'])
        with ([log_checking] ++ ev' ++ [log_closing chat r']).
      rewrite !sends_app, Hev. destruct (log_closing_log chat r') as (lv & m & ->). done.
    + intros [= _ <- _]. by eexists.
  - destruct Hc as (lv & msg & ->). destruct Hc1 as (lv1 & msg1 & ->).
    intros [= _ <- _]. by eexists.
Qed.

Lemma second_cycle_is_silent_witness :
  exists st1 ev1 ev2,
    check_rss_feed always_ok (parsed [entry_new; entry_mid; entry_old]) None started
      first_run = (Return tt, st1, ev1)
    /\ length (sends ev1) = 3%nat
    /\ check_rss_feed always_ok (parsed [entry_new; entry_mid; entry_old]) None started
         st1 = (Return tt, st1, ev2)
    /\ sends ev2 = [].
Proof.
  eexists _, _. 
  edestruct (fun r st1 ev1 =>
               second_cycle_is_silent always_ok (parsed [entry_new; entry_mid; entry_old])
                 None started first_run r st1 ev1) as (ev2 & H2 & Hs);
    [done|vm_compute; reflexivity|].
  exists ev2. split; [vm_compute; reflexivity|].
  split; [vm_compute; reflexivity|]. split; [exact H2|exact Hs].
Defined.

(** X12 -- A cycle that has no destination, or whose fetch raised, or
    whose feed the parser flagged as not well-formed -- whatever entries
    that feed carries -- returns normally, sends nothing, leaves the
    state as it is, and ends with a record above the information
    level. *)
Theorem cycle_without_usable_feed {Bot : Type}
    (send_message :
       Bot -> string -> string -> ParseMode -> option bool -> result unit * Bot)
    (fp : string -> result FeedParserDict) (TARGET_CHAT_ID : option string)
    (context : bot_data) (st : state Bot) :
  destination TARGET_CHAT_ID context = None
  \/ (exists e, fp RSS_FEED_URL = Raise e)
  \/ (exists f, fp RSS_FEED_URL = Return f /\ bozo f = true) ->
  exists ev lv msg,
    check_rss_feed send_message fp TARGET_CHAT_ID context st = (Return tt, st, ev)
    /\ sends ev = []
    /\ last ev = Some (Log lv msg) /\ lv <> INFO.
Proof.
  unfold destination, check_rss_feed.
  destruct (negb (default false (chat_id_confirmed context))
            && negb (truthy_opt TARGET_CHAT_ID)); [intros _; by eexists _, _, _|].
  destruct (if truthy_opt TARGET_CHAT_ID then TARGET_CHAT_ID else user_chat_id context)
    as [[|c chat]|]; [intros _; by eexists _, _, _| |intros _; by eexists _, _, _].
  intros [?|[[e He]|(f & Hf & Hb)]]; [done| |]; run_monad.
  - rewrite He. simpl. by eexists _, _, _.
  - rewrite Hf. simpl. rewrite Hb. simpl. by eexists _, _, _.
Qed.

Lemma cycle_without_usable_feed_witness :
  exists ev lv msg,
    check_rss_feed always_ok (flagged [entry_new; entry_old]) None started first_run
    = (Return tt, first_run, ev)
    /\ sends ev = []
    /\ last ev = Some (Log lv msg) /\ lv <> INFO.
Proof.
  apply (cycle_without_usable_feed always_ok (flagged [entry_new; entry_old]) None
           started first_run).
  right. right. eexists. split; reflexivity.
Defined.

(** ** Order *)

(** X13 -- A cycle never reorders: whatever the endpoint answers and
    whatever the store holds, the texts handed to the endpoint are the
    attempts (full form, then possibly short form) for some of the
    entries of the feed, taken from the last entry of the feed towards
    the first, each entry at most once per position. *)
Theorem cycle_never_reorders {Bot : Type}
    (send_message :
       Bot -> string -> string -> ParseMode -> option bool -> result unit * Bot)
    (fp : string -> result FeedParserDict) (TARGET_CHAT_ID : option string)
    (context : bot_data) (f : FeedParserDict) (st : state Bot) r st' ev :
  fp RSS_FEED_URL = Return f ->
  check_rss_feed send_message fp TARGET_CHAT_ID context st = (r, st', ev) ->
  exists es gs, sublist es (rev (entries f))
                /\ Forall2 attempt_group es gs
                /\ sent_texts ev = concat gs.
Proof.
  intros Hfp.
  pose proof (check_rss_feed_cases send_message fp TARGET_CHAT_ID context st) as Hc.
  destruct (destination TARGET_CHAT_ID context) as [chat|].
  - rewrite Hc, Hfp. clear Hc. destruct (bozo f).
    + intros [= _ _ <-]. exists [], []. split; [apply sublist_nil_l|].
      split; [constructor|done].
    + destruct (for_in (rev (entries f)) _ _ st) as [[rl s] evl] eqn:Hloop.
      intros [= _ _ <-]. apply for_in_order in Hloop as (es & gs & Hsub & Hgs & Hev).
      exists es, gs. split; [done|]. split; [done|].
      unfold log_checking. rewrite sent_texts_log, sent_texts_app, Hev.
      destruct (log_closing_log chat rl) as (lv & m & ->). simpl. by rewrite app_nil_r.
  - destruct Hc as (lv & msg & ->). intros [= _ _ <-]. exists [], [].
    split; [apply sublist_nil_l|]. split; [constructor|done].
Qed.

Lemma cycle_never_reorders_witness :
  exists st' ev es gs,
    check_rss_feed telegram (parsed [entry_new; entry_long_title; entry_old]) None
      started first_run = (Return tt, st', ev)
    /\ sent_texts ev = [full_of entry_old; full_of entry_long_title;
                        short_of entry_long_title; full_of entry_new]
    /\ sublist es [entry_old; entry_long_title; entry_new]
    /\ Forall2 attempt_group es gs
    /\ sent_texts ev = concat gs.
Proof.
  eexists _, _.
  edestruct (fun r st' ev =>
               cycle_never_reorders telegram
                 (parsed [entry_new; entry_long_title; entry_old]) None started
                 {| bozo := false; bozo_exception := "";
                    entries := [entry_new; entry_long_title; entry_old] |}
                 first_run r st' ev eq_refl) as (es & gs & H1 & H2 & H3);
    [vm_compute; reflexivity|].
  exists es, gs. split; [vm_compute; reflexivity|].
  split; [vm_compute; reflexivity|]. split; [exact H1|]. split; [exact H2|exact H3].
Defined.

Lemma check_rss_feed_order_witness :
  exists st' ev gs,
    check_rss_feed always_ok (parsed [entry_new; entry_mid; entry_old]) None started
      first_run = (Return tt, st', ev)
    /\ Forall2 attempt_group [entry_old; entry_mid; entry_new] gs
    /\ sent_texts ev = concat gs.
Proof.
  apply (check_rss_feed_order always_ok None (parsed [entry_new; entry_mid; entry_old])
           "42" started
           {| bozo := false; bozo_exception := "";
              entries := [entry_new; entry_mid; entry_old] |} first_run
           eq_refl eq_refl eq_refl).
  - repeat constructor; eexists _, _;
      (split; [vm_compute; reflexivity|]); (split; [reflexivity|]);
      (split; [apply not_elem_of_empty|vm_compute; reflexivity]).
  - apply (bool_decide_unpack _). vm_compute. exact I.
Defined.

Lemma untitled_entry_cuts_off_newer_witness :
  check_rss_feed always_ok (parsed [entry_new; entry_mid_untitled; entry_old]) None
    started first_run
  = check_rss_feed always_ok (parsed [entry_mid_untitled; entry_old]) None
      started first_run.
Proof.
  apply (untitled_entry_cuts_off_newer always_ok None
           (parsed [entry_new; entry_mid_untitled; entry_old])
           {| bozo := false; bozo_exception := "";
              entries := [entry_new; entry_mid_untitled; entry_old] |}
           [entry_new] [entry_old] entry_mid_untitled "urn:2" started first_run
           eq_refl eq_refl).
  - vm_compute. reflexivity.
  - reflexivity.
  - vm_compute. reflexivity.
  - apply not_elem_of_empty.
  - intros e' ->%list_elem_of_singleton. vm_compute. discriminate.
Defined.

(** ** Lengths and the oversize report *)

(** X16 -- The full form fits whenever the budget for the summary is
    not negative: for every title, link and summary -- empty, short or
    cut -- with a budget of at least zero and a link that HTML-escaping
    lengthens by at most 21 characters, the full form has at most
    [MAX_MESSAGE_LENGTH] characters. *)
Theorem full_form_fits (title link description : string) :
  0 <= max_desc_len title link ->
  escape_growth link <= 21 ->
  len (full_message title link description) <= MAX_MESSAGE_LENGTH.
Proof.
  intros Hpos Hesc.
  destruct (Z.lt_ge_cases (max_desc_len title link) (len description)) as [Hlong|Hshort].
  { rewrite len_full_message_truncated by done. rewrite len_html_escape.
    destruct (truthy link); lia. }
  unfold full_message. fold (title_block title). fold (max_desc_len title link).
  destruct (Z.gtb_spec (len description) (max_desc_len title link)) as [?|_]; [lia|].
  assert (len link = 0 \/ truthy link = true) as Hl.
  { destruct link; [by left | by right]. }
  pose proof (len_nonneg description) as Hd.
  pose proof (len_html_escape link) as Hel.
  unfold max_desc_len in *.
  destruct (truthy description); destruct (truthy link) eqn:Htl;
    try (destruct Hl as [Hl|?]; [|done]);
    rewrite !len_append;
    change (len nl) with 1; change (len "<a href=") with 8; change (len dq) with 1;
    change (len ">Read more</a>") with 14; change (len "No link available.") with 18;
    change MAX_MESSAGE_LENGTH with 4096 in *; lia.
Qed.

Lemma full_form_fits_witness :
  len (full_message (title_of entry_old) (link_of entry_old) (description_of entry_old))
  <= MAX_MESSAGE_LENGTH.
Proof.
  apply (full_form_fits (title_of entry_old) (link_of entry_old)
           (description_of entry_old)).
  - vm_compute. discriminate.
  - vm_compute. discriminate.
Defined.

(** X17 -- An error of the endpoint is taken as an oversize report, the
    one case in which the short form is tried, exactly when its text
    contains the words "message is too long" in any letter case, with
    anything before and after. *)
Theorem oversize_report_iff (e : exn) :
  is_too_long e = true
  <-> exists a s b, str e = a +:+ s +:+ b /\ lower s = "message is too long".
Proof.
  unfold is_too_long. rewrite contains_spec. split.
  - intros (a' & b' & H). apply lower_append_inv in H as (a & t & Ht & Ha & H).
    apply lower_append_inv in H as (s & b & -> & Hs & Hb). by exists a, s, b.
  - intros (a & s & b & -> & Hs). exists (lower a), (lower b).
    by rewrite !lower_append, Hs.
Qed.

(** ** What a restart forgets *)

Section SameSet.

Context {Bot : Type}.
Variable send_message :
  Bot -> string -> string -> ParseMode -> option bool -> result unit * Bot.
Hypothesis Haccepting : accepting send_message.

Implicit Types (st s : state Bot) (entry : gmap string string) (n : nat).

(** With an endpoint that accepts every message, the texts the loop
    sends depend on the sent set alone: two runs over the same list,
    from states with the same sent set, send the same texts and end with
    the same sent set. *)
Lemma for_in_texts_by_set chat (l : list (gmap string string)) n n' st s
    r st' ev r' s' ev' :
  sent_item_ids st = sent_item_ids s ->
  for_in l (loop_body send_message chat) n st = (r, st', ev) ->
  for_in l (loop_body send_message chat) n' s = (r', s', ev') ->
  sent_texts ev = sent_texts ev' /\ sent_item_ids st' = sent_item_ids s'.
Proof.
  revert n n' st s r st' ev r' s' ev'.
  induction l as [|entry l IH]; intros n n' st s r st' ev r' s' ev' Hset; simpl.
  - by intros [= _ <- <-] [= _ <- <-].
  - unfold bind.
    destruct (entry_cases entry st) as [H|x Hid Hx Hin|x Hid Hx Hin Ht|x t Hid Hx Hin Ht].
    + rewrite !loop_body_no_identity by done.
      destruct (for_in l _ n st) as [[r2 s2] ev2] eqn:Hl.
      destruct (for_in l _ n' s) as [[r3 s3] ev3] eqn:Hl'.
      intros [= _ <- <-] [= _ <- <-].
      destruct (IH _ _ _ _ _ _ _ _ _ _ Hset Hl Hl') as [Hev Hs].
      split; [|done]. unfold log_no_identity. simpl. done.
    + erewrite !loop_body_already_sent; [|done|done|by rewrite <- Hset|done..].
      destruct (for_in l _ n st) as [[r2 s2] ev2] eqn:Hl.
      destruct (for_in l _ n' s) as [[r3 s3] ev3] eqn:Hl'.
      intros [= _ <- <-] [= _ <- <-].
      destruct (IH _ _ _ _ _ _ _ _ _ _ Hset Hl Hl') as [Hev Hs]. done.
    + erewrite !loop_body_no_title; [|done|done|by rewrite <- Hset|done..].
      by intros [= _ <- <-] [= _ <- <-].
    + erewrite !loop_body_new; [|done|done|by rewrite <- Hset|done..]. cbv zeta.
      pose proof (Haccepting (bot st) chat (full_of entry) HTML (Some false)) as Hok.
      pose proof (Haccepting (bot s) chat (full_of entry) HTML (Some false)) as Hok'.
      destruct (send_message (bot st) chat (full_of entry) HTML (Some false))
        as [[[]|e] b1]; [|done].
      destruct (send_message (bot s) chat (full_of entry) HTML (Some false))
        as [[[]|e] b1']; [|done].
      assert (forall a a' s1 s1' ev1 ev1',
                sent_item_ids s1 = sent_item_ids s1' ->
                sent_texts ev1 = sent_texts ev1' ->
                (let '(r, st2, ev2) := for_in l (loop_body send_message chat) a s1 in
                 (r, st2, ev1 ++ ev2)) = (r, st', ev) ->
                (let '(r, st2, ev2) := for_in l (loop_body send_message chat) a' s1' in
                 (r, st2, ev1' ++ ev2)) = (r', s', ev') ->
                sent_texts ev = sent_texts ev' /\ sent_item_ids st' = sent_item_ids s')
        as Hgo.
      { intros a a' s1 s1' ev1 ev1' Hs1 Hev1.
        destruct (for_in l _ a s1) as [[r2 s2] ev2] eqn:Hl.
        destruct (for_in l _ a' s1') as [[r3 s3] ev3] eqn:Hl'.
        intros [= _ <- <-] [= _ <- <-].
        destruct (IH _ _ _ _ _ _ _ _ _ _ Hs1 Hl Hl') as [Hev Hs].
        by rewrite !sent_texts_app, Hev, Hev1. }
      destruct (disk_writable st), (disk_writable s);
        apply Hgo; simpl; by rewrite ?Hset.
Qed.

End SameSet.

(** X18 -- What a restart forgets. With an endpoint that accepts every
    message and a file that cannot be written, from a state in step
    with its file: the ids of a cycle's deliveries are in memory alone,
    and a process that starts on the file afterwards (empty set, then a
    load that completes) sends, in its cycle on the same feed, every
    text of that cycle again. *)
Theorem unwritable_store_repeats_after_restart {Bot : Type}
    (send_message :
       Bot -> string -> string -> ParseMode -> option bool -> result unit * Bot)
    (fp : string -> result FeedParserDict) (TARGET_CHAT_ID : option string)
    (context : bot_data) (st st1 : state Bot) r ev1 :
  accepting send_message ->
  in_step st -> disk_writable st = false ->
  check_rss_feed send_message fp TARGET_CHAT_ID context st = (r, st1, ev1) ->
  forall (s s2 st2 : state Bot) evl r2 ev2,
    disk s = disk st1 -> sent_item_ids s = ∅ ->
    load_sent_items s = (Return tt, s2, evl) ->
    check_rss_feed send_message fp TARGET_CHAT_ID context s2 = (r2, st2, ev2) ->
    sent_texts ev2 = sent_texts ev1.
Proof.
  intros Hacc [Hin _] Hw Hrun s s2 st2 evl r2 ev2 Hd Hs Hload.
  apply load_sent_items_in_step in Hload as [Hs2 _]; [|done].
  pose proof Hrun as Hl.
  apply check_rss_feed_ledger in Hl as (_ & ids & _ & _ & _ & _ & Hd1).
  rewrite Hw in Hd1. rewrite Hd, Hd1, <- Hin in Hs2. clear Hd Hd1 Hin Hs.
  revert Hrun.
  pose proof (check_rss_feed_cases send_message fp TARGET_CHAT_ID context st) as Hc.
  pose proof (check_rss_feed_cases send_message fp TARGET_CHAT_ID context s2) as Hc2.
  destruct (destination TARGET_CHAT_ID context) as [chat|].
  - rewrite Hc, Hc2. clear Hc Hc2. destruct (fp RSS_FEED_URL) as [f|e].
    + destruct (bozo f); [by intros [= _ _ <-] [= _ _ <-]|].
      destruct (for_in (rev (entries f)) _ _ st) as [[rl sl] evl1] eqn:Hloop.
      destruct (for_in (rev (entries f)) _ _ s2) as [[rl2 sl2] evl2] eqn:Hloop2.
      intros [= _ _ <-] [= _ _ <-].
      destruct (for_in_texts_by_set send_message Hacc _ _ _ _ _ _ _ _ _ _ _ _
                  (eq_sym Hs2) Hloop Hloop2) as [Hev _].
      unfold log_checking. rewrite !sent_texts_log, !sent_texts_app, Hev.
      destruct (log_closing_log chat rl) as (lv & m & ->).
      destruct (log_closing_log chat rl2) as (lv2 & m2 & ->). done.
    + by intros [= _ _ <-] [= _ _ <-].
  - destruct Hc as (lv & msg & ->). destruct Hc2 as (lv2 & msg2 & ->).
    by intros [= _ _ <-] [= _ _ <-].
Qed.

Lemma unwritable_store_repeats_after_restart_witness :
  let st := {| sent_item_ids := {[ "urn:1" ]}; disk := Some ("urn:1" +:+ nl);
               disk_readable := true; disk_writable := false; bot := tt |} in
  let s := {| sent_item_ids := ∅; disk := Some ("urn:1" +:+ nl);
              disk_readable := true; disk_writable := false; bot := tt |} in
  exists st1 ev1 s2 evl st2 ev2,
    check_rss_feed always_ok (parsed [entry_mid; entry_old]) None started st
    = (Return tt, st1, ev1)
    /\ load_sent_items s = (Return tt, s2, evl)
    /\ check_rss_feed always_ok (parsed [entry_mid; entry_old]) None started s2
       = (Return tt, st2, ev2)
    /\ sent_texts ev1 = [full_of entry_mid]
    /\ sent_texts ev2 = sent_texts ev1.
Proof.
  intros st s. eexists _, _, _, _, _, _.
  split; [vm_compute; reflexivity|]. split; [vm_compute; reflexivity|].
  split; [vm_compute; reflexivity|]. split; [vm_compute; reflexivity|].
  eapply (unwritable_store_repeats_after_restart always_ok
            (parsed [entry_mid; entry_old]) None started st) with (s := s).
  - done.
  - split; [vm_compute; reflexivity|]. right. by exists "urn:1".
  - reflexivity.
  - vm_compute. reflexivity.
  - vm_compute. reflexivity.
  - reflexivity.
  - vm_compute. reflexivity.
  - vm_compute. reflexivity.
Defined.

(** ** What leaves the loop, and what a refused entry leaves behind *)

Section Atomicity.

Context {Bot : Type}.
Variable send_message :
  Bot -> string -> string -> ParseMode -> option bool -> result unit * Bot.

Implicit Types (st s : state Bot) (entry : gmap string string) (n : nat).

(** The body returns, or its entry is new and has no title: then
    [entry.title] raised, before any call and any change. *)
Lemma loop_body_raise chat entry n st e st' ev :
  loop_body send_message chat entry n st = (Raise e, st', ev) ->
  e = Exception "object has no attribute 'title'"
  /\ entry !! "title" = None
  /\ exists x, item_id_of entry = Some x /\ truthy x = true /\ (x ∉ sent_item_ids st).
Proof.
  destruct (entry_cases entry st) as [H|x Hid Hx Hin|x Hid Hx Hin Ht|x t Hid Hx Hin Ht].
  - by rewrite loop_body_no_identity.
  - by erewrite loop_body_already_sent.
  - erewrite loop_body_no_title by done. intros [= <- _ _].
    split; [done|]. split; [done|]. by exists x.
  - erewrite loop_body_new by done. cbv zeta.
    destruct (send_message (bot st) chat (full_of entry) HTML (Some false))
      as [[[]|e1] b1]; [by destruct (disk_writable st)|].
    destruct (is_too_long e1); [|done].
    destruct (send_message b1 chat (short_of entry) HTML None) as [[[]|e2] b2];
      [by destruct (disk_writable st)|done].
Qed.

(** The one exception that leaves the loop is the missing [title]
    attribute of an entry of the list. *)
Lemma for_in_raise chat (l : list (gmap string string)) n st e st' ev :
  for_in l (loop_body send_message chat) n st = (Raise e, st', ev) ->
  e = Exception "object has no attribute 'title'"
  /\ exists entry, entry ∈ l /\ entry !! "title" = None.
Proof.
  revert n st st' ev. induction l as [|entry l IH]; intros n st st' ev; simpl; [done|].
  unfold bind.
  destruct (loop_body send_message chat entry n st) as [[[a|e1] s1] ev1] eqn:Hb.
  - destruct (for_in l _ a s1) as [[[k|e2] s2] ev2] eqn:Hl; [done|].
    intros [= <- _ _]. apply IH in Hl as (-> & entry' & Hin & Ht).
    split; [done|]. exists entry'. split; [in_list|done].
  - intros [= <- _ _]. apply loop_body_raise in Hb as (-> & Ht & _).
    split; [done|]. exists entry. split; [in_list|done].
Qed.





End Atomicity.




(** ** What the closing record reports *)

(** X2 -- While the file can be written, the count that the closing
    record of a cycle reports is the number of messages the endpoint
    accepted in the cycle. A cycle that fetched a well-formed feed ends
    with the record of that count (the record of no new items when it
    is zero) exactly when its loop returned, and then that count is
    the counter of the loop. The loop is left by one exception only,
    the missing [title] attribute of an entry of the feed, and then the
    cycle ends with the error record of that exception. So a cycle on
    a feed all of whose entries have a title ends with the count. *)
Theorem reported_count_is_accepted_sends {Bot : Type}
    (send_message :
       Bot -> string -> string -> ParseMode -> option bool -> result unit * Bot)
    (fp : string -> result FeedParserDict) (TARGET_CHAT_ID : option string)
    (context : bot_data) (st : state Bot) chat f r st' ev :
  destination TARGET_CHAT_ID context = Some chat ->
  fp RSS_FEED_URL = Return f -> bozo f = false ->
  disk_writable st = true ->
  check_rss_feed send_message fp TARGET_CHAT_ID context st = (r, st', ev) ->
  (exists rl sl evl,
     for_in (rev (entries f)) (loop_body send_message chat) 0%nat st = (rl, sl, evl)
     /\ match rl with
        | Return new_items_found =>
            new_items_found = length (accepted ev)
            /\ last ev = Some (log_closing chat (Return (length (accepted ev))))
        | Raise e =>
            e = Exception "object has no attribute 'title'"
            /\ (exists entry, entry ∈ entries f /\ entry !! "title" = None)
            /\ last ev = Some (log_cycle_error e)
        end)
  /\ ((forall entry, entry ∈ entries f -> entry !! "title" <> None) ->
      last ev = Some (log_closing chat (Return (length (accepted ev))))).
Proof.
  intros Hdest Hfp Hbozo Hw.
  pose proof (check_rss_feed_cases send_message fp TARGET_CHAT_ID context st) as Hc.
  rewrite Hdest, Hfp, Hbozo in Hc. rewrite Hc. clear Hc.
  destruct (for_in (rev (entries f)) _ _ st) as [[rl s] evl] eqn:Hloop.
  intros [= _ _ <-]. rewrite last_closing.
  pose proof Hloop as Hl.
  apply for_in_ledger in Hl as (_ & ids & _ & _ & _ & Hlen & Hd).
  rewrite Hw in Hd. destruct Hd as [_ Hk].
  assert (forall k, accepted (log_checking :: evl ++ [log_closing chat (Return k)])
                    = accepted evl) as Hacc.
  { intros k.
    change (log_checking :: evl ++ [log_closing chat (Return k)])
      with ([log_checking] ++ evl ++ [log_closing chat (Return k)]).
    by rewrite !accepted_app, accepted_log_closing, app_nil_r. }
  destruct rl as [k|e].
  - pose proof (Hk k eq_refl) as Hk'. simpl in Hk'.
    rewrite Hacc, <- Hlen, <- Hk'. split; [|done].
    eexists _, _, _. split; [done|]. by split.
  - apply for_in_raise in Hloop as Hcause. destruct Hcause as (-> & entry & Hin & Ht).
    apply (proj1 (elem_of_rev _ _)) in Hin. split.
    + eexists _, _, _. split; [done|]. split; [done|]. split; [|done]. by exists entry.
    + intros Hall. by destruct (Hall entry Hin).
Qed.

Lemma reported_count_is_accepted_sends_witness :
  exists st' ev,
    check_rss_feed always_ok (parsed [entry_new; entry_mid; entry_old]) None
      started (restarted ["urn:1"]) = (Return tt, st', ev)
    /\ length (accepted ev) = 2%nat
    /\ last ev = Some (Log INFO "Sent 2 new items to chat 42.").
Proof.
  eexists _, _. split; [vm_compute; reflexivity|].
  split; [vm_compute; reflexivity|].
  edestruct (fun r st' ev =>
               reported_count_is_accepted_sends always_ok
                 (parsed [entry_new; entry_mid; entry_old]) None started
                 (restarted ["urn:1"]) "42"
                 {| bozo := false; bozo_exception := "";
                    entries := [entry_new; entry_mid; entry_old] |}
                 r st' ev eq_refl eq_refl eq_refl eq_refl) as [_ H];
    [vm_compute; reflexivity|].
  etrans; [apply H|vm_compute; reflexivity].
  intros entry He. simpl in He. rewrite !elem_of_cons, elem_of_nil in He.
  destruct He as [->|[->|[->|[]]]]; vm_compute; discriminate.
Defined.

(** X3 -- While the file cannot be written, a cycle leaves the file as
    it is, every call of the endpoint -- the accepted ones as well -- is
    followed at once by an error record, and the counter of the loop
    stays at zero: the cycle that fetched a well-formed feed closes
    with the record of no new items exactly when its loop returned,
    however many messages were delivered. The loop is left by one
    exception only, the missing [title] attribute of an entry of the
    feed, and then the cycle ends with the error record of that
    exception. So a cycle on a feed all of whose entries have a title
    closes with the record of no new items. *)
Theorem unwritable_store_hides_deliveries {Bot : Type}
    (send_message :
       Bot -> string -> string -> ParseMode -> option bool -> result unit * Bot)
    (fp : string -> result FeedParserDict) (TARGET_CHAT_ID : option string)
    (context : bot_data) (st : state Bot) chat f r st' ev :
  destination TARGET_CHAT_ID context = Some chat ->
  fp RSS_FEED_URL = Return f -> bozo f = false ->
  disk_writable st = false ->
  check_rss_feed send_message fp TARGET_CHAT_ID context st = (r, st', ev) ->
  disk st' = disk st
  /\ sends_logged_as_errors ev = true
  /\ (exists rl sl evl,
        for_in (rev (entries f)) (loop_body send_message chat) 0%nat st = (rl, sl, evl)
        /\ match rl with
           | Return new_items_found =>
               new_items_found = 0%nat
               /\ last ev = Some (Log INFO "No new items found in this check.")
           | Raise e =>
               e = Exception "object has no attribute 'title'"
               /\ (exists entry, entry ∈ entries f /\ entry !! "title" = None)
               /\ last ev = Some (log_cycle_error e)
           end)
  /\ ((forall entry, entry ∈ entries f -> entry !! "title" <> None) ->
      last ev = Some (Log INFO "No new items found in this check.")).
Proof.
  intros Hdest Hfp Hbozo Hw.
  pose proof (check_rss_feed_cases send_message fp TARGET_CHAT_ID context st) as Hc.
  rewrite Hdest, Hfp, Hbozo in Hc. rewrite Hc. clear Hc.
  destruct (for_in (rev (entries f)) _ _ st) as [[rl s] evl] eqn:Hloop.
  intros [= _ <- <-]. rewrite last_closing.
  pose proof Hloop as Hl.
  apply for_in_ledger in Hl as (_ & ids & _ & _ & _ & _ & Hd).
  rewrite Hw in Hd. destruct Hd as [Hd Hk]. split; [done|]. split.
  - pose proof Hloop as Hl.
    apply (for_in_events send_message (fun s => disk_writable s = false)
             (fun ev => sends_logged_as_errors ev = true)) in Hl as [_ Hev];
      [|done|apply sends_logged_as_errors_app| |done].
    + apply (sends_logged_as_errors_app [log_checking]); [done|].
      apply sends_logged_as_errors_app; [done|].
      destruct rl as [k|e]; simpl; [by destruct (0 <? k)%nat|done].
    + clear. intros entry n st r st' ev Hw.
      destruct (entry_cases entry st) as [H|x Hid Hx Hin|x Hid Hx Hin Ht|x t Hid Hx Hin Ht].
      * rewrite loop_body_no_identity by done. by intros [= _ <- <-].
      * erewrite loop_body_already_sent by done. by intros [= _ <- <-].
      * erewrite loop_body_no_title by done. by intros [= _ <- <-].
      * erewrite loop_body_new by done. cbv zeta. rewrite Hw.
        destruct (send_message (bot st) chat (full_of entry) HTML (Some false))
          as [[[]|e] b1]; [by intros [= _ <- <-]|].
        destruct (is_too_long e); [|by intros [= _ <- <-]].
        destruct (send_message b1 chat (short_of entry) HTML None) as [[[]|e2] b2];
          by intros [= _ <- <-].
  - destruct rl as [k|e].
    + rewrite (Hk k eq_refl). simpl. split; [|done].
      eexists _, _, _. split; [done|]. by split.
    + apply for_in_raise in Hloop as Hcause.
      destruct Hcause as (-> & entry & Hin & Ht).
      apply (proj1 (elem_of_rev _ _)) in Hin. split.
      * eexists _, _, _. split; [done|]. split; [done|]. split; [|done]. by exists entry.
      * intros Hall. by destruct (Hall entry Hin).
Qed.

Lemma unwritable_store_hides_deliveries_witness :
  let st := {| sent_item_ids := ∅; disk := Some ""; disk_readable := true;
               disk_writable := false; bot := tt |} in
  exists st' ev,
    check_rss_feed always_ok (parsed [entry_mid; entry_old]) None started st
    = (Return tt, st', ev)
    /\ length (accepted ev) = 2%nat
    /\ disk st' = Some ""
    /\ last ev = Some (Log INFO "No new items found in this check.").
Proof.
  intros st. eexists _, _. split; [vm_compute; reflexivity|].
  split; [vm_compute; reflexivity|].
  edestruct (fun r st' ev =>
               unwritable_store_hides_deliveries always_ok
                 (parsed [entry_mid; entry_old]) None started st "42"
                 {| bozo := false; bozo_exception := "";
                    entries := [entry_mid; entry_old] |}
                 r st' ev eq_refl eq_refl eq_refl eq_refl) as (Hd & _ & _ & H);
    [vm_compute; reflexivity|].
  split; [exact Hd|]. apply H.
  intros entry He. simpl in He. rewrite !elem_of_cons, elem_of_nil in He.
  destruct He as [->|[->|[]]]; vm_compute; discriminate.
Defined.
